(** * The RAML client generator: a model of its validator, its URI template
      engine and its DSL tree builder

    The development follows the JavaScript source function by function:
    [validateParam], [template], [httpRequest], [attachQuery],
    [attachHeaders], [attachMethods] and [attachResources].  JavaScript
    values are a small inductive type, thrown errors are the [Throw] case of a
    result type, and the arrays of path nodes that the closures of the
    generated client share live in an explicit store.

    What the generator leaves to libraries is kept as the call that would be
    made: the address [url.resolve] makes, the text [qs.stringify] makes, the
    body [JSON.stringify] makes.  The root function of [generateClient],
    which expands a path with the uri-template library, is not part of the
    model; the resources are taken as [sanitizeAST] leaves them, and what
    [sanitizeAST] makes of the arrays of the parser is modelled on its own. *)

From Stdlib Require Import ZArith Ascii String Bool Lia.
From Stdlib Require Import DecimalString DecimalFacts DecimalPos.
From stdpp Require Import base option list strings.

Set Default Proof Using "Type".
Set Warnings "-register-all".

(* ===================================================================== *)
(** * JavaScript numbers                                                  *)
(* ===================================================================== *)

(** A finite number is identified with the decimal that [Number::toString]
    prints for it: [Dec m k] is [m / 10^k].  Printing is injective and
    monotone on finite doubles, so [===], [<] and [>] on numbers are the
    comparisons of these decimals.  Negative zero is not told apart from
    zero (the two are [===] and print alike). *)
Module Num.

Inductive number :=
| NaN
| Infinity (negative : bool)
| Dec (m : Z) (k : nat).

Definition of_Z (z : Z) : number := Dec z 0.
Definition of_nat (n : nat) : number := Dec (Z.of_nat n) 0.

(** Numeric comparison; [None] when an operand is [NaN]. *)
Definition compare (a b : number) : option comparison :=
  match a, b with
  | NaN, _ | _, NaN => None
  | Infinity s, Infinity t =>
      Some (if s then (if t then Eq else Lt) else (if t then Gt else Eq))
  | Infinity s, Dec _ _ => Some (if s then Lt else Gt)
  | Dec _ _, Infinity t => Some (if t then Gt else Lt)
  | Dec m1 k1, Dec m2 k2 =>
      Some (m1 * 10 ^ Z.of_nat k2 ?= m2 * 10 ^ Z.of_nat k1)%Z
  end.

Definition eqb (a b : number) : bool :=
  match compare a b with Some Eq => true | _ => false end.
Definition ltb (a b : number) : bool :=
  match compare a b with Some Lt => true | _ => false end.
Definition gtb (a b : number) : bool :=
  match compare a b with Some Gt => true | _ => false end.

(** [x] denotes the integer [z]. *)
Definition denotes (x : number) (z : Z) : Prop :=
  match x with
  | Dec m k => m = (z * 10 ^ Z.of_nat k)%Z
  | _ => False
  end.

(** ** Printing, after [Number::toString] of ECMAScript 5, 9.8.1 *)

Definition digits (a : Z) : string :=
  NilZero.string_of_uint (N.to_uint (Z.to_N a)).

Fixpoint zeros (n : nat) : string :=
  match n with
  | O => ""
  | S n' => String "0" (zeros n')
  end.

(** The digits without the zeros that end them. *)
Fixpoint strip_zeros (s : string) : string :=
  match s with
  | EmptyString => ""
  | String c r =>
      match strip_zeros r with
      | EmptyString => if Ascii.eqb c "0" then "" else String c ""
      | r' => String c r'
      end
  end.

Fixpoint take (n : nat) (s : string) : string :=
  match n, s with
  | S n', String c r => String c (take n' r)
  | _, _ => ""
  end.

Fixpoint drop (n : nat) (s : string) : string :=
  match n, s with
  | S n', String _ r => drop n' r
  | _, _ => s
  end.

(** With [s] the significant digits, [k] their count and [n] such that
    [10^(n-1) <= |x| < 10^n], the four cases of 9.8.1 in their order. *)
Definition to_string (x : number) : string :=
  match x with
  | NaN => "NaN"
  | Infinity false => "Infinity"
  | Infinity true => "-Infinity"
  | Dec m d =>
      if (m =? 0)%Z then "0" else
      let all := digits (Z.abs m) in
      let n := (Z.of_nat (String.length all) - Z.of_nat d)%Z in
      let s := strip_zeros all in
      let k := Z.of_nat (String.length s) in
      (if (m <? 0)%Z then "-" else "") +:+
      (if ((k <=? n) && (n <=? 21))%Z then
         s +:+ zeros (Z.to_nat (n - k))
       else if ((0 <? n) && (n <=? 21))%Z then
         take (Z.to_nat n) s +:+ "." +:+ drop (Z.to_nat n) s
       else if ((-6 <? n) && (n <=? 0))%Z then
         "0." +:+ zeros (Z.to_nat (- n)) +:+ s
       else
         let e := (n - 1)%Z in
         (if (k =? 1)%Z then s else take 1 s +:+ "." +:+ drop 1 s)
         +:+ "e" +:+ (if (0 <=? e)%Z then "+" else "-") +:+ digits (Z.abs e))
  end.

(** ** Reading, after [parseInt(string, 10)] of ECMAScript 5, 15.1.2.2 *)

Definition digit_of (c : ascii) : option Z :=
  let n := nat_of_ascii c in
  if (48 <=? n)%nat && (n <=? 57)%nat then Some (Z.of_nat (n - 48)) else None.

Definition is_white (c : ascii) : bool :=
  let n := nat_of_ascii c in
  (n =? 32)%nat || ((9 <=? n)%nat && (n <=? 13)%nat).

Fixpoint skip_white (s : string) : string :=
  match s with
  | String c r => if is_white c then skip_white r else s
  | EmptyString => s
  end.

(** The value of the longest run of digits that starts [s]. *)
Fixpoint digits_prefix (acc : option Z) (s : string) : option Z :=
  match s with
  | String c r =>
      match digit_of c with
      | Some d => digits_prefix (Some (10 * default 0 acc + d)%Z) r
      | None => acc
      end
  | EmptyString => acc
  end.

Definition parseInt10 (s : string) : number :=
  let s := skip_white s in
  let '(neg, body) :=
    match s with
    | String "-" r => (true, r)
    | String "+" r => (false, r)
    | _ => (false, s)
    end in
  match digits_prefix None body with
  | None => NaN
  | Some z => Dec (if neg then - z else z) 0
  end.

End Num.

Abbreviation number := Num.number.

(* ===================================================================== *)
(** * JavaScript values                                                   *)
(* ===================================================================== *)

(** The values that reach the generator: primitives, dates, regular
    expressions, arrays and plain objects.  A date carries the text its
    [toString] prints; a regular expression carries its source and what its
    [test] method answers (a pattern without the [g] flag, whose [test] has no
    state).  An object lists its own properties in enumeration order.  A text
    is held as the bytes of its UTF-8 encoding, which is what a string
    literal of this file holds. *)
Inductive JSVal :=
| VUndefined
| VNull
| VBool (b : bool)
| VNum (n : number)
| VStr (s : string)
| VDate (shown : string)
| VRegExp (source : string) (test : string -> bool)
| VArr (items : list JSVal)
| VObj (props : list (string * JSVal)).

(** [v == null] *)
Definition is_nullish (v : JSVal) : bool :=
  match v with
  | VUndefined | VNull => true
  | _ => false
  end.

(** [a === b] where one side is a primitive: values of different types
    differ, numbers compare by value ([NaN] differs from itself).  Objects
    compare by identity in JavaScript, and none is identical to a primitive;
    the model never compares two objects. *)
Definition strict_eq (a b : JSVal) : bool :=
  match a, b with
  | VUndefined, VUndefined => true
  | VNull, VNull => true
  | VBool x, VBool y => Bool.eqb x y
  | VNum x, VNum y => Num.eqb x y
  | VStr x, VStr y => String.eqb x y
  | _, _ => false
  end.

(** [v === +v]: it holds exactly of the numbers other than [NaN], since the
    unary plus yields a number, which is never [===] to a value of another
    type. *)
Definition is_number (v : JSVal) : bool :=
  match v with
  | VNum Num.NaN => false
  | VNum _ => true
  | _ => false
  end.

(** [a < b] and [a > b], evaluated by the source on two numbers only. *)
Definition js_lt (a b : JSVal) : bool :=
  match a, b with
  | VNum x, VNum y => Num.ltb x y
  | _, _ => false
  end.
Definition js_gt (a b : JSVal) : bool :=
  match a, b with
  | VNum x, VNum y => Num.gtb x y
  | _, _ => false
  end.

Fixpoint join (sep : string) (l : list string) : string :=
  match l with
  | [] => ""
  | [x] => x
  | x :: r => x +:+ sep +:+ join sep r
  end.

(** [String(v)] for values that keep the built-in [toString]. *)
Fixpoint ToString (v : JSVal) : string :=
  match v with
  | VUndefined => "undefined"
  | VNull => "null"
  | VBool true => "true"
  | VBool false => "false"
  | VNum n => Num.to_string n
  | VStr s => s
  | VDate shown => shown
  | VRegExp source _ => "/" +:+ source +:+ "/"
  | VArr items =>
      join "," (map (fun x => if is_nullish x then "" else ToString x) items)
  | VObj _ => "[object Object]"
  end.

(** [parseInt(v, 10)]: the argument is first turned into a string. *)
Definition parseInt (v : JSVal) : number := Num.parseInt10 (ToString v).

(** Own-property lookup [o[k]] in a list of properties. *)
Fixpoint lookup_prop {A : Type} (k : string) (props : list (string * A)) : option A :=
  match props with
  | [] => None
  | (k', v) :: r => if String.eqb k k' then Some v else lookup_prop k r
  end.

(** [o[k] = v]: the value is replaced in place, a new key goes last. *)
Fixpoint set_prop {A : Type} (k : string) (v : A) (props : list (string * A))
  : list (string * A) :=
  match props with
  | [] => [(k, v)]
  | (k', v') :: r =>
      if String.eqb k k' then (k, v) :: r else (k', v') :: set_prop k v r
  end.

(* ===================================================================== *)
(** * Errors and results                                                  *)
(* ===================================================================== *)

(** One constructor per [throw] of the source, named after the failure.
    [MissingRequired] is the [ReferenceError] of line 23, [TypeMismatch] the
    [TypeError]s of lines 30, 67, 72, 88 and 93, [EnumViolation] the [Error]
    of line 35, [LengthViolation] those of lines 44 and 53,
    [PatternViolation] that of line 61, [RangeViolation] those of lines 77 and
    82, [InsufficientArguments] that of line 367 and [InvalidHeaders] that of
    line 284.  [UndefinedParam] is the [TypeError] the engine raises when
    [validateParam] reads [param.required] of an undefined [param], and
    [NotAFunction] the one it raises when a value that is no function is
    called.  [BaseNotString] is the [TypeError] of [url.resolve], called at
    line 202, for a base address that is not a string. *)
Inductive Error :=
| MissingRequired
| TypeMismatch
| EnumViolation
| LengthViolation
| PatternViolation
| RangeViolation
| InsufficientArguments
| InvalidHeaders
| UndefinedParam
| NotAFunction
| BaseNotString.

Inductive Result (A : Type) :=
| Ok (a : A)
| Throw (e : Error).
Arguments Ok {A} a.
Arguments Throw {A} e.

Definition rbind {A B : Type} (r : Result A) (f : A -> Result B) : Result B :=
  match r with
  | Ok a => f a
  | Throw e => Throw e
  end.

#[export] Instance Result_ret : MRet Result := fun _ a => Ok a.
#[export] Instance Result_bind : MBind Result := fun _ _ f r => rbind r f.

(** [if (c) throw e;] *)
Definition throw_if (c : bool) (e : Error) : Result unit :=
  if c then Throw e else Ok tt.

(* ===================================================================== *)
(** * The parameter validator                                             *)
(* ===================================================================== *)

(** A parameter of the RAML description.  Every facet is a JavaScript value,
    [VUndefined] when the description does not set it. *)
Record Param := {
  displayName : JSVal;
  type : JSVal;
  required : JSVal;
  enum : JSVal;
  minLength : JSVal;
  maxLength : JSVal;
  pattern : JSVal;
  minimum : JSVal;
  maximum : JSVal
}.

(** [_.isArray(list) && !_.contains(list, value)] *)
Definition outside_enum (list value : JSVal) : bool :=
  match list with
  | VArr items => negb (existsb (strict_eq value) items)
  | _ => false
  end.

(** The UTF-16 code units a byte of a UTF-8 text stands for: one for an
    ASCII byte and for the first byte of a sequence of two or three (a
    character of the basic plane), two for the first byte of a sequence of
    four (a surrogate pair), none for a continuation byte. *)
Definition utf16_units (c : ascii) : nat :=
  let n := nat_of_ascii c in
  if n <? 128 then 1
  else if n <? 192 then 0
  else if n <? 240 then 1
  else 2.

(** [value.length]: the number of UTF-16 code units of the text. *)
Fixpoint utf16_length (s : string) : nat :=
  match s with
  | EmptyString => 0
  | String c rest => utf16_units c + utf16_length rest
  end.

(** [bound === +bound && value.length < bound] *)
Definition shorter_than (s : string) (bound : JSVal) : bool :=
  is_number bound && js_lt (VNum (Num.of_nat (utf16_length s))) bound.

(** [bound === +bound && value.length > bound] *)
Definition longer_than (s : string) (bound : JSVal) : bool :=
  is_number bound && js_gt (VNum (Num.of_nat (utf16_length s))) bound.

(** [_.isRegExp(pattern) && !pattern.test(value)] *)
Definition fails_pattern (s : string) (pat : JSVal) : bool :=
  match pat with
  | VRegExp _ test => negb (test s)
  | _ => false
  end.

(** [bound === +bound && value < bound] *)
Definition below (value bound : JSVal) : bool :=
  is_number bound && js_lt value bound.

(** [bound === +bound && value > bound] *)
Definition above (value bound : JSVal) : bool :=
  is_number bound && js_gt value bound.

Definition validateParam (value : JSVal) (param : Param) : Result bool :=
  throw_if (strict_eq (required param) (VBool true) && is_nullish value)
    MissingRequired ;;
  (if negb (is_nullish value) then
     if strict_eq (type param) (VStr "string") then
       match value with
       | VStr s =>
           throw_if (outside_enum (enum param) value) EnumViolation ;;
           throw_if (shorter_than s (minLength param)) LengthViolation ;;
           throw_if (longer_than s (maxLength param)) LengthViolation ;;
           throw_if (fails_pattern s (pattern param)) PatternViolation
       | _ => Throw TypeMismatch
       end
     else if strict_eq (type param) (VStr "integer")
             || strict_eq (type param) (VStr "number") then
       (if strict_eq (type param) (VStr "number") then
          throw_if (negb (is_number value)) TypeMismatch
        else
          throw_if (negb (strict_eq value (VNum (parseInt value)))) TypeMismatch) ;;
       throw_if (below value (minimum param)) RangeViolation ;;
       throw_if (above value (maximum param)) RangeViolation
     else if strict_eq (type param) (VStr "date") then
       match value with
       | VDate _ => Ok tt
       | _ => Throw TypeMismatch
       end
     else if strict_eq (type param) (VStr "boolean") then
       match value with
       | VBool _ => Ok tt
       | _ => Throw TypeMismatch
       end
     else Ok tt
   else Ok tt) ;;
  Ok true.

(** A description that sets nothing. *)
Definition no_facets : Param := {|
  displayName := VUndefined; type := VUndefined; required := VUndefined;
  enum := VUndefined; minLength := VUndefined; maxLength := VUndefined;
  pattern := VUndefined; minimum := VUndefined; maximum := VUndefined |}.

Definition int (z : Z) : JSVal := VNum (Num.of_Z z).

(* ===================================================================== *)
(** * The URI template engine                                             *)
(* ===================================================================== *)

(** The [params] object of [template]: its own properties in the order
    [_.keys] lists them. *)
Definition Params := list (string * Param).

(** The [context] of [template]: an array, read by match index, or an object,
    read by parameter name. *)
Inductive Context :=
| CtxArray (items : list JSVal)
| CtxObject (props : list (string * JSVal)).

(** The alternatives of [paramRegex].  The source joins the escaped keys with
    [|] between [{(] and [)}]; [escape] makes every key match itself only.
    Without keys the joined text is empty and the group has the one, empty,
    alternative. *)
Definition alternatives (params : Params) : list string :=
  match params with
  | [] => [""]
  | _ => map fst params
  end.

Definition tag_text (name : string) : string := "{" +:+ name +:+ "}".

(** The alternative the pattern matches with where [s] starts: the first
    one, in their order, whose text between braces starts [s]. *)
Fixpoint find_tag (alts : list string) (s : string) : option string :=
  match alts with
  | [] => None
  | name :: rest =>
      if String.prefix (tag_text name) s then Some name else find_tag rest s
  end.

(** [text.replace(paramRegex, callback)] with a global pattern: the matches
    are found from left to right, none inside another, and each is replaced
    by what the callback returns for the [index]-th match and the name it
    captured.  A callback that throws ends the scan.  [skip] counts the
    characters of a match still to pass. *)
Fixpoint replace (alts : list string) (callback : nat -> string -> Result string)
    (skip index : nat) (text : string) : Result string :=
  match text with
  | EmptyString => Ok ""
  | String c rest =>
      match skip with
      | S n => replace alts callback n index rest
      | O =>
          match find_tag alts text with
          | Some name =>
              new ← callback index name;
              out ← replace alts callback (S (String.length name)) (S index) rest;
              Ok (new +:+ out)
          | None =>
              out ← replace alts callback 0 index rest;
              Ok (String c out)
          end
      end
  end.

(** [validateParam(value, params[param])]; reading [required] of an
    undefined [params[param]] throws. *)
Definition validate_with (params : Params) (value : JSVal) (param : string)
  : Result bool :=
  match lookup_prop param params with
  | Some spec => validateParam value spec
  | None => Throw UndefinedParam
  end.

(** [value == null ? '' : value], turned into a string by [replace]. *)
Definition substituted (value : JSVal) : string :=
  if is_nullish value then "" else ToString value.

(** [params] is [None] when the argument is undefined or null.  An object
    context is read among its own properties: the statements about it are
    for contexts that own the names they are read by. *)
Definition template (text : string) (params : option Params) (context : Context)
  : Result string :=
  match params with
  | None => Ok text
  | Some params =>
      let paramRegex := alternatives params in
      match context with
      | CtxArray items =>
          replace paramRegex (fun index param =>
            let value := default VUndefined (items !! index) in
            validate_with params value param ;;
            Ok (substituted value)) 0 0 text
      | CtxObject props =>
          replace paramRegex (fun _ param =>
            let value := default VUndefined (lookup_prop param props) in
            validate_with params value param ;;
            Ok (substituted value)) 0 0 text
      end
  end.

(* ===================================================================== *)
(** * Regular expressions                                                 *)
(* ===================================================================== *)

(** The pattern of line 343 is kept as a term and tested by derivatives. *)
Module Regex.

Inductive re :=
| Void
| Eps
| Class (p : ascii -> bool)
| Seq (r s : re)
| Alt (r s : re)
| Star (r : re).

Definition Plus (r : re) : re := Seq r (Star r).

Fixpoint nullable (r : re) : bool :=
  match r with
  | Void => false
  | Eps => true
  | Class _ => false
  | Seq r s => nullable r && nullable s
  | Alt r s => nullable r || nullable s
  | Star _ => true
  end.

Fixpoint deriv (c : ascii) (r : re) : re :=
  match r with
  | Void => Void
  | Eps => Void
  | Class p => if p c then Eps else Void
  | Seq r s =>
      if nullable r then Alt (Seq (deriv c r) s) (deriv c s)
      else Seq (deriv c r) s
  | Alt r s => Alt (deriv c r) (deriv c s)
  | Star r => Seq (deriv c r) (Star r)
  end.

(** [/^r$/.test(s)]: the whole of [s] is in the language of [r]. *)
Fixpoint test (r : re) (s : string) : bool :=
  match s with
  | EmptyString => nullable r
  | String c rest => test (deriv c r) rest
  end.

(** The language of a pattern. *)
Inductive matches : re -> string -> Prop :=
| m_eps : matches Eps ""
| m_class p c : p c = true -> matches (Class p) (String c "")
| m_seq r s u v : matches r u -> matches s v -> matches (Seq r s) (u +:+ v)
| m_alt_l r s u : matches r u -> matches (Alt r s) u
| m_alt_r r s u : matches s u -> matches (Alt r s) u
| m_star_nil r : matches (Star r) ""
| m_star_more r u v :
    matches r u -> matches (Star r) v -> matches (Star r) (u +:+ v).

End Regex.

(** [\w] *)
Definition is_word (c : ascii) : bool :=
  let n := nat_of_ascii c in
  ((48 <=? n) && (n <=? 57)) || ((65 <=? n) && (n <=? 90))
  || ((97 <=? n) && (n <=? 122)) || (n =? 95).

Definition is_char (a c : ascii) : bool := Ascii.eqb a c.

(** [[^\{\}]] *)
Definition not_brace (c : ascii) : bool :=
  negb (is_char "{" c) && negb (is_char "}" c).

(** [\{[^\{\}]+\}], one tag. *)
Definition tag_re : Regex.re :=
  Regex.Seq (Regex.Class (is_char "{"))
    (Regex.Seq (Regex.Plus (Regex.Class not_brace)) (Regex.Class (is_char "}"))).

(** [/^\w*(?:\{[^\{\}]+\})+$/] *)
Definition route_re : Regex.re :=
  Regex.Seq (Regex.Star (Regex.Class is_word)) (Regex.Plus tag_re).

(** [route.indexOf('{')], [None] for [-1]. *)
Fixpoint indexOf (c : ascii) (s : string) : option nat :=
  match s with
  | EmptyString => None
  | String x rest => if Ascii.eqb x c then Some 0 else S <$> indexOf c rest
  end.

(** [route.substr(0, route.indexOf('{'))].  A length of [-1] gives the empty
    text. *)
Definition before_brace (route : string) : string :=
  match indexOf "{" route with
  | Some n => String.substring 0 n route
  | None => ""
  end.

Definition HTTP_METHODS : list string :=
  ["get"; "head"; "put"; "post"; "patch"; "delete"].

(** The keys of [RESERVED_METHODS]. *)
Definition RESERVED_METHODS : list string := HTTP_METHODS ++ ["headers"; "query"].

(** [_.has(RESERVED_METHODS, name)] *)
Definition reserved (name : string) : bool :=
  existsb (String.eqb name) RESERVED_METHODS.

Definition RETURN_PROPERTY : string := "@return".

(* ===================================================================== *)
(** * The description of an API                                           *)
(* ===================================================================== *)

(** A method of the sanitized description; the generator reads its [method]
    property only. *)
Record Method := { method : JSVal }.

(** [resource.methods], keyed by verb; empty when the resource has none. *)
Definition Methods := list (string * Method).

(** A resource of the sanitized description.  [uriParameters] is [None] when
    the property is not set; [resources] lists the routes below this one in
    the order [_.each] visits them. *)
Inductive Resource := mkResource {
  uriParameters : option Params;
  methods : Methods;
  resources : list (string * Resource)
}.

(* ===================================================================== *)
(** * Path nodes and the store                                            *)
(* ===================================================================== *)

(** What [nodes.query] holds once [.query(...)] ran: the argument itself, or
    the text [qs.stringify] made of an object.  The querystring library is
    outside the generator, so that text is kept as the call that makes it. *)
Inductive QueryValue :=
| QValue (v : JSVal)
| QStringify (o : JSVal).

(** An array of path nodes with the properties the generator hangs on it.
    [query] and [headers] are [None] while the array has no such property,
    which is what ['query' in nodes] and ['headers' in nodes] ask. *)
Record Nodes := {
  segments : list string;
  baseUri : JSVal;
  query : option QueryValue;
  headers : option JSVal
}.

Definition set_segments (l : list string) (n : Nodes) : Nodes :=
  {| segments := l; baseUri := baseUri n; query := query n; headers := headers n |}.
Definition set_query (q : QueryValue) (n : Nodes) : Nodes :=
  {| segments := segments n; baseUri := baseUri n; query := Some q; headers := headers n |}.
Definition set_headers (h : JSVal) (n : Nodes) : Nodes :=
  {| segments := segments n; baseUri := baseUri n; query := query n; headers := Some h |}.

Definition empty_nodes : Nodes :=
  {| segments := []; baseUri := VUndefined; query := None; headers := None |}.

(** The arrays are mutable and shared by the closures that captured them:
    they live in a store and are named by their index in it. *)
Abbreviation loc := nat.
Abbreviation Store := (list Nodes).

(** A computation that reads and writes the store and may throw. *)
Definition M (A : Type) : Type := Store -> Result A * Store.

#[export] Instance M_ret : MRet M := fun _ a st => (Ok a, st).
#[export] Instance M_bind : MBind M := fun _ _ f m st =>
  match m st with
  | (Ok a, st') => f a st'
  | (Throw e, st') => (Throw e, st')
  end.
#[export] Instance M_fmap : FMap M := fun _ _ f m st =>
  match m st with
  | (Ok a, st') => (Ok (f a), st')
  | (Throw e, st') => (Throw e, st')
  end.

Definition throw {A : Type} (e : Error) : M A := fun st => (Throw e, st).

Definition lift {A : Type} (r : Result A) : M A := fun st => (r, st).

(** The array at [l]. *)
Definition at_loc (st : Store) (l : loc) : Nodes := default empty_nodes (st !! l).

Definition read (l : loc) : M Nodes :=
  fun st => (Ok (at_loc st l), st).

Definition write (l : loc) (n : Nodes) : M unit :=
  fun st => (Ok tt, <[l := n]> st).

(** [_.extend([], n)]: a new array with the elements and properties of [n]. *)
Definition alloc (n : Nodes) : M loc :=
  fun st => (Ok (length st), st ++ [n]).

(* ===================================================================== *)
(** * The call graph                                                      *)
(* ===================================================================== *)

(** [url.resolve(url.resolve(base, path), '?' + query)], the second call only
    with a query.  The url library is outside the generator: the address is
    kept as the arguments it is resolved from. *)
Record Url := {
  url_base : JSVal;
  url_path : string;
  url_query : option QueryValue
}.

(** The functions the generator creates, each with what it captured. *)
Inductive Code :=
| Request (fullUrl : Url) (nodes : loc) (method : Method)
| QueryHelper (routeNodes : loc) (methods : Methods)
| HeadersHelper (routeNodes : loc) (methods : Methods)
| Accessor (templateCount : nat) (route : string) (resource : Resource)
    (routeNodes : loc).

(** A context of the generated client: a plain object or a function, with
    its own properties in the order they were set.  Contexts are built once
    and the calls of the client make new ones, so they are kept as trees. *)
Inductive Value :=
| Object (props : list (string * Value))
| Function (code : Code) (props : list (string * Value)).

Definition props_of (v : Value) : list (string * Value) :=
  match v with
  | Object props | Function _ props => props
  end.

(** The own properties of a context that was given the name [name].  It is
    what [context[name]] reads for every name but those of [built_in]. *)
Definition member (name : string) (context : Value) : option Value :=
  lookup_prop name (props_of context).

(** The names [context[name]] finds on a context that was given none: those
    an object inherits from [Object.prototype], and those a function has of
    its own or inherits from [Function.prototype].  For such a route name the
    source goes on with the built-in value (line 393) where the model, which
    follows own properties only, makes a new context. *)
Definition BUILT_IN : list string :=
  ["constructor"; "toString"; "toLocaleString"; "valueOf"; "hasOwnProperty";
   "isPrototypeOf"; "propertyIsEnumerable"; "__proto__";
   "__defineGetter__"; "__defineSetter__"; "__lookupGetter__";
   "__lookupSetter__";
   "length"; "name"; "arguments"; "caller"; "prototype";
   "apply"; "bind"; "call"].

Definition built_in (name : string) : bool :=
  existsb (String.eqb name) BUILT_IN.

(** [context[name] = v] *)
Definition set_member (name : string) (v : Value) (context : Value) : Value :=
  match context with
  | Object props => Object (set_prop name v props)
  | Function code props => Function code (set_prop name v props)
  end.

(** [_.extend(f, old)]: the properties of [old], when there is one, are
    copied onto the new function. *)
Definition extend (code : Code) (old : option Value) : Value :=
  Function code (from_option props_of [] old).

(** [body.replace(/^\/+/, '')] *)
Fixpoint strip_slashes (s : string) : string :=
  match s with
  | String "/" rest => strip_slashes rest
  | _ => s
  end.

(** [_.isString(nodes.query)] *)
Definition is_text (q : QueryValue) : bool :=
  match q with
  | QValue (VStr _) => true
  | QValue _ => false
  | QStringify _ => true
  end.

(** [typeof v === 'object'] *)
Definition typeof_object (v : JSVal) : bool :=
  match v with
  | VNull | VDate _ | VRegExp _ _ | VArr _ | VObj _ => true
  | _ => false
  end.

(** [_.isObject(v)] *)
Definition isObject (v : JSVal) : bool :=
  match v with
  | VDate _ | VRegExp _ _ | VArr _ | VObj _ => true
  | _ => false
  end.

(** [typeof v === 'string'], the test [url.resolve] makes of its base. *)
Definition is_string (v : JSVal) : bool :=
  match v with
  | VStr _ => true
  | _ => false
  end.

(** The address is resolved when the function is made, and [url.resolve]
    throws when the base is not a string; [nodes] is kept for the headers,
    which are read when the function is called. *)
Definition httpRequest (nodes : loc) (method : Method) : M Value :=
  n ← read nodes;
  if is_string (baseUri n) then
    let fullUrl := {|
      url_base := baseUri n;
      url_path := strip_slashes (join "/" (segments n));
      url_query := q ← query n; if is_text q then Some q else None |} in
    mret (Function (Request fullUrl nodes method) [])
  else throw BaseNotString.

(** [_.each(methods, ...)] of [attachMethods]. *)
Fixpoint attachVerbs (nodes : loc) (context : Value) (methods : Methods) : M Value :=
  match methods with
  | [] => mret context
  | (verb, method) :: rest =>
      f ← httpRequest nodes method;
      attachVerbs nodes (set_member verb f context) rest
  end.

(** [attachQuery] and [attachHeaders] call [attachMethods], which calls
    them: they take it as an argument here and the knot is tied below. *)
Definition attachQuery (attachMethods : loc -> Value -> Methods -> M Value)
    (nodes : loc) (context : Value) (methods : Methods) : M Value :=
  n ← read nodes;
  match query n with
  | Some _ => mret context
  | None =>
      routeNodes ← alloc (set_query (QValue VNull) n);
      let helper := Function (QueryHelper routeNodes methods) [] in
      returned ← attachMethods routeNodes (Object []) methods;
      mret (set_member "query" (set_member RETURN_PROPERTY returned helper) context)
  end.

Definition attachHeaders (attachMethods : loc -> Value -> Methods -> M Value)
    (nodes : loc) (context : Value) (methods : Methods) : M Value :=
  n ← read nodes;
  match headers n with
  | Some _ => mret context
  | None =>
      routeNodes ← alloc (set_headers VNull n);
      let helper := Function (HeadersHelper routeNodes methods) [] in
      returned ← attachMethods routeNodes (Object []) methods;
      mret (set_member "headers" (set_member RETURN_PROPERTY returned helper) context)
  end.

(** The recursion of [attachMethods] ends because each nested call is on an
    array with one more of [query] and [headers] than the one before; [fuel]
    bounds its depth. *)
Fixpoint attachMethods_fuel (fuel : nat) (nodes : loc) (context : Value)
    (methods : Methods) : M Value :=
  match fuel with
  | O => mret context
  | S fuel =>
      context ← attachQuery (attachMethods_fuel fuel) nodes context methods;
      context ← attachHeaders (attachMethods_fuel fuel) nodes context methods;
      attachVerbs nodes context methods
  end.

(** Two properties can be missing, so the depth is three at most. *)
Definition attachMethods : loc -> Value -> Methods -> M Value :=
  attachMethods_fuel 3.

(** [_.keys(resource.uriParameters)] *)
Definition keys {A : Type} (o : list (string * A)) : list string := map fst o.

(** The name a dynamic route is attached under (lines 348 to 352). *)
Definition routeNameOf (route : string) (templateTags : list string) : string :=
  match templateTags with
  | [tag] => if String.eqb (tag_text tag) route then tag else before_brace route
  | _ => before_brace route
  end.

(** The callback of [_.each(resources, ...)] for one resource.  Underscore's
    [each] goes on whatever the callback returns, so the [return false] of a
    skipped route leaves the context as it is and the loop continues. *)
Fixpoint attachResource (nodes : loc) (context : Value) (route : string)
    (resource : Resource) {struct resource} : M Value :=
  let attachResources :=
    fix each (nodes : loc) (context : Value) (rs : list (string * Resource))
        {struct rs} : M Value :=
      match rs with
      | [] => mret context
      | (route, resource) :: rest =>
          context ← attachResource nodes context route resource;
          each nodes context rest
      end in
  match resource with
  | mkResource uriParameters methods resources =>
      n ← read nodes;
      routeNodes ← alloc n;
      write routeNodes (set_segments (segments n ++ [route]) n);;
      match keys <$> uriParameters with
      | Some ((_ :: _) as templateTags) =>
          if Regex.test route_re route then
            let templateCount := length templateTags in
            let routeName := routeNameOf route templateTags in
            if reserved routeName then mret context
            else
              let accessor :=
                extend (Accessor templateCount route resource routeNodes)
                  (member routeName context) in
              returnPropContext ← attachMethods routeNodes (Object []) methods;
              returnPropContext ← attachResources routeNodes returnPropContext resources;
              mret (set_member routeName
                      (set_member RETURN_PROPERTY returnPropContext accessor) context)
          else mret context
      | _ =>
          let routeName := route in
          let newContext := default (Object []) (member routeName context) in
          newContext ← attachMethods routeNodes newContext methods;
          newContext ← attachResources routeNodes newContext resources;
          mret (set_member routeName newContext context)
      end
  end.

Fixpoint attachResources (nodes : loc) (context : Value)
    (resources : list (string * Resource)) : M Value :=
  match resources with
  | [] => mret context
  | (route, resource) :: rest =>
      context ← attachResource nodes context route resource;
      attachResources nodes context rest
  end.

(* ===================================================================== *)
(** * Calling the functions of the client                                 *)
(* ===================================================================== *)

(** [JSON.stringify(data)] for an object, the data as they are otherwise. *)
Inductive Body :=
| BodyJson (data : JSVal)
| BodyRaw (data : JSVal).

(** The [options] handed to [App.middleware.trigger('ajax', options, done)]. *)
Record Options := {
  opt_url : Url;
  opt_data : Body;
  opt_method : JSVal;
  opt_headers : JSVal
}.

(** A call of a function of the client gives a new context or hands a
    request to the middleware. *)
Inductive Outcome :=
| Graph (context : Value)
| Sent (options : Options).

(** A method of the description as the value it is: an object with the
    [method] property. *)
Definition method_object (m : Method) : JSVal := VObj [("method", method m)].

(** The body of the function [httpRequest] returns.  The test of line 212
    compares [method], the method object, with the texts ['get'] and
    ['head']; when it holds the data are dropped. *)
Definition send (fullUrl : Url) (nodes : loc) (m : Method) (args : list JSVal)
  : M Outcome :=
  n ← read nodes;
  let data :=
    if strict_eq (method_object m) (VStr "get")
       || strict_eq (method_object m) (VStr "head")
    then VNull
    else default VUndefined (args !! 0) in
  mret (Sent {|
    opt_url := fullUrl;
    opt_data := if typeof_object data then BodyJson data else BodyRaw data;
    opt_method := method m;
    opt_headers := default VUndefined (headers n) |}).

(** The body of [context.query]. *)
Definition call_query (routeNodes : loc) (methods : Methods) (args : list JSVal)
  : M Outcome :=
  let query := default VUndefined (args !! 0) in
  let query := if isObject query then QStringify query else QValue query in
  n ← read routeNodes;
  write routeNodes (set_query query n);;
  Graph <$> attachMethods routeNodes (Object []) methods.

(** The body of [context.headers]. *)
Definition call_headers (routeNodes : loc) (methods : Methods) (args : list JSVal)
  : M Outcome :=
  let headers := default VUndefined (args !! 0) in
  if negb (typeof_object headers) then throw InvalidHeaders
  else
    n ← read routeNodes;
    write routeNodes (set_headers headers n);;
    Graph <$> attachMethods routeNodes (Object []) methods.

(** The body of the function attached for a dynamic route.  The array always
    has a last element, the route pushed on it when it was made. *)
Definition call_accessor (templateCount : nat) (route : string)
    (resource : Resource) (routeNodes : loc) (args : list JSVal) : M Outcome :=
  if length args <? templateCount then throw InsufficientArguments
  else
    text ← lift (template route (uriParameters resource) (CtxArray args));
    n ← read routeNodes;
    write routeNodes
      (set_segments (<[length (segments n) - 1 := text]> (segments n)) n);;
    newContext ← attachMethods routeNodes (Object []) (methods resource);
    Graph <$> attachResources routeNodes newContext (resources resource).

(** [f(args...)] *)
Definition invoke (f : Value) (args : list JSVal) : M Outcome :=
  match f with
  | Object _ => throw NotAFunction
  | Function (Request fullUrl nodes method) _ => send fullUrl nodes method args
  | Function (QueryHelper routeNodes methods) _ => call_query routeNodes methods args
  | Function (HeadersHelper routeNodes methods) _ => call_headers routeNodes methods args
  | Function (Accessor templateCount route resource routeNodes) _ =>
      call_accessor templateCount route resource routeNodes args
  end.

(** The array [generateClient] starts from: no segment, the base address. *)
Definition root_nodes (base : JSVal) : Nodes :=
  {| segments := []; baseUri := base; query := None; headers := None |}.

(* ===================================================================== *)
(** * Notions the statements use                                          *)
(* ===================================================================== *)

(** The value is the integer [z]. *)
Definition value_denotes (v : JSVal) (z : Z) : Prop :=
  match v with
  | VNum n => Num.denotes n z
  | _ => False
  end.

(** [ToBoolean(v)] *)
Definition truthy (v : JSVal) : bool :=
  match v with
  | VUndefined | VNull => false
  | VBool b => b
  | VNum Num.NaN => false
  | VNum (Num.Dec m _) => negb (m =? 0)%Z
  | VNum (Num.Infinity _) => true
  | VStr s => negb (String.eqb s "")
  | _ => true
  end.

Definition is_boolean (v : JSVal) : bool :=
  match v with
  | VBool _ => true
  | _ => false
  end.

Definition is_regexp (v : JSVal) : bool :=
  match v with
  | VRegExp _ _ => true
  | _ => false
  end.

Definition with_type (t : JSVal) (p : Param) : Param := {|
  displayName := displayName p; type := t; required := required p;
  enum := enum p; minLength := minLength p; maxLength := maxLength p;
  pattern := pattern p; minimum := minimum p; maximum := maximum p |}.

Definition with_required (r : JSVal) (p : Param) : Param := {|
  displayName := displayName p; type := type p; required := r;
  enum := enum p; minLength := minLength p; maxLength := maxLength p;
  pattern := pattern p; minimum := minimum p; maximum := maximum p |}.

Definition with_pattern (pat : JSVal) (p : Param) : Param := {|
  displayName := displayName p; type := type p; required := required p;
  enum := enum p; minLength := minLength p; maxLength := maxLength p;
  pattern := pat; minimum := minimum p; maximum := maximum p |}.

Definition with_maximum (m : JSVal) (p : Param) : Param := {|
  displayName := displayName p; type := type p; required := required p;
  enum := enum p; minLength := minLength p; maxLength := maxLength p;
  pattern := pattern p; minimum := minimum p; maximum := m |}.

(** [{type: 'integer', maximum: hi}] *)
Definition integer_at_most (hi : Z) : Param :=
  with_maximum (int hi) (with_type (VStr "integer") no_facets).

(** The five types the validator knows. *)
Definition known_types : list string :=
  ["string"; "integer"; "number"; "date"; "boolean"].

(** The names a parameter object declares; none when there is no object. *)
Definition declared (params : option Params) : list string :=
  from_option keys [] params.

(** Some alternative of the pattern matches somewhere in [s]. *)
Fixpoint has_tag (alts : list string) (s : string) : bool :=
  match s with
  | EmptyString => false
  | String _ rest =>
      match find_tag alts s with
      | Some _ => true
      | None => has_tag alts rest
      end
  end.

(** [{type: 'string', required: true}] *)
Definition required_string : Param :=
  with_required (VBool true) (with_type (VStr "string") no_facets).

(** Every character of [s] satisfies [p]. *)
Fixpoint all_chars (p : ascii -> bool) (s : string) : bool :=
  match s with
  | EmptyString => true
  | String c rest => p c && all_chars p rest
  end.

(** The texts of [l] one after the other. *)
Fixpoint concat_all (l : list string) : string :=
  match l with
  | [] => ""
  | x :: rest => x +:+ concat_all rest
  end.

(** A name that can stand between braces: not empty, no brace in it. *)
Definition tag_name (name : string) : Prop :=
  name <> "" /\ all_chars not_brace name = true.

(** A route made of a static text whose characters satisfy [static],
    followed by one or more tags up to its end. *)
Definition Shape (static : ascii -> bool) (route : string) : Prop :=
  exists prefix names,
    route = prefix +:+ concat_all (map tag_text names) /\
    all_chars static prefix = true /\
    names <> [] /\ Forall tag_name names.

(** The shape the pattern of line 343 asks for: the static text is made of
    word characters. *)
Definition RouteShape : string -> Prop := Shape is_word.

(** The shape in the words of the specification: any static text, then one
    or more tags, and nothing after the first tag but tags. *)
Definition SpecRouteShape : string -> Prop := Shape not_brace.

(** The names between braces in a route, in the words of the specification
    (the parameter names appearing in the route). *)
Fixpoint names_in (inside : option string) (s : string) : list string :=
  match s with
  | EmptyString => []
  | String c rest =>
      match inside with
      | None =>
          if is_char "{" c then names_in (Some "") rest else names_in None rest
      | Some acc =>
          if is_char "}" c then acc :: names_in None rest
          else names_in (Some (acc +:+ String c "")) rest
      end
  end.

Definition names_in_route (route : string) : list string := names_in None route.

(** The array at [l] has a text for base address, which only an array of
    the store can have. *)
Definition has_base (st : Store) (l : loc) : Prop :=
  is_string (baseUri (at_loc st l)) = true.

(** The computation leaves every array of the store as it was, whether it
    returns or throws: it only adds arrays. *)
Definition Extends {A : Type} (m : M A) : Prop :=
  forall st, exists r ext, m st = (r, st ++ ext).

(** On a store where the array at [l] has a text for base address the
    computation returns a value, and it only adds arrays. *)
Definition Builds {A : Type} (l : loc) (m : M A) : Prop :=
  forall st, has_base st l -> exists a ext, m st = (Ok a, st ++ ext).

(** How many of [query] and [headers] an array does not have. *)
Definition missing (n : Nodes) : nat :=
  match query n with Some _ => 0 | None => 1 end
  + match headers n with Some _ => 0 | None => 1 end.


(** ** A small description to run the generator on *)

Definition GET : Methods := [("get", {| method := VStr "get" |})].

(** A resource with one parameter, [id], a required string, and a [get]. *)
Definition id_resource : Resource :=
  mkResource (Some [("id", required_string)]) GET [].

(** A resource that declares [id] and [version]. *)
Definition id_version_resource : Resource :=
  mkResource (Some [("id", required_string); ("version", required_string)]) GET [].

(** The store [generateClient] starts with: the root array alone. *)
Definition start : Store := [root_nodes (VStr "http://api.example.com")].

(** [context[name]], which throws when called if there is no such member. *)
Definition get_member (name : string) (context : Value) : M Value :=
  match member name context with
  | Some v => mret v
  | None => throw NotAFunction
  end.

(** A call that must give a context. *)
Definition call (f : Value) (args : list JSVal) : M Value :=
  o ← invoke f args;
  match o with
  | Graph context => mret context
  | Sent _ => throw NotAFunction
  end.

(** A call that must hand a request to the middleware; its headers. *)
Definition sent_headers (f : Value) (args : list JSVal) : M JSVal :=
  o ← invoke f args;
  match o with
  | Sent options => mret (opt_headers options)
  | Graph _ => throw NotAFunction
  end.

(** One static resource, [users], with a [get]. *)
Definition users_api : list (string * Resource) :=
  [("users", mkResource None GET [])].

(** [a = client.users.headers({X: '1'}); a.get(); client.users.headers({Y:
    '2'}); a.get()]: the headers the two requests of [a] carry. *)
Definition headers_twice : M (JSVal * JSVal) :=
  client ← attachResources 0 (Object []) users_api;
  users ← get_member "users" client;
  helper ← get_member "headers" users;
  a ← call helper [VObj [("X", VStr "1")]];
  get ← get_member "get" a;
  before ← sent_headers get [];
  call helper [VObj [("Y", VStr "2")]];;
  after ← sent_headers get [];
  mret (before, after).

(** The same with [query]: the addresses of the two requests of [a]. *)
Definition query_twice : M (Url * Url) :=
  client ← attachResources 0 (Object []) users_api;
  users ← get_member "users" client;
  helper ← get_member "query" users;
  a ← call helper [VStr "a=1"];
  get ← get_member "get" a;
  before ← invoke get [];
  call helper [VStr "b=2"];;
  after ← invoke get [];
  match before, after with
  | Sent o1, Sent o2 => mret (opt_url o1, opt_url o2)
  | _, _ => throw NotAFunction
  end.

(** [users] with a [get], and below it [{id}], an integer, with a [get]. *)
Definition users_id_api : list (string * Resource) :=
  [("users",
    mkResource None GET
      [("{id}",
        mkResource (Some [("id", with_type (VStr "integer") no_facets)]) GET [])])].

(** [client.users.get(cb)] and [client.users.id(42).get(cb)]: the addresses
    of the two requests. *)
Definition users_then_id : M (Url * Url) :=
  client ← attachResources 0 (Object []) users_id_api;
  users ← get_member "users" client;
  get ← get_member "get" users;
  all ← invoke get [];
  id ← get_member "id" users;
  user ← call id [int 42];
  get ← get_member "get" user;
  one ← invoke get [];
  match all, one with
  | Sent o1, Sent o2 => mret (opt_url o1, opt_url o2)
  | _, _ => throw NotAFunction
  end.

(* ===================================================================== *)
(** * Further notions: facets, addresses, the description before it is
      sanitized                                                           *)
(* ===================================================================== *)

Definition with_enum (e : JSVal) (p : Param) : Param := {|
  displayName := displayName p; type := type p; required := required p;
  enum := e; minLength := minLength p; maxLength := maxLength p;
  pattern := pattern p; minimum := minimum p; maximum := maximum p |}.

Definition with_lengths (lo hi : JSVal) (p : Param) : Param := {|
  displayName := displayName p; type := type p; required := required p;
  enum := enum p; minLength := lo; maxLength := hi;
  pattern := pattern p; minimum := minimum p; maximum := maximum p |}.

Definition with_range (lo hi : JSVal) (p : Param) : Param := {|
  displayName := displayName p; type := type p; required := required p;
  enum := enum p; minLength := minLength p; maxLength := maxLength p;
  pattern := pattern p; minimum := lo; maximum := hi |}.

(** [_.isArray(v)] *)
Definition is_array (v : JSVal) : bool :=
  match v with
  | VArr _ => true
  | _ => false
  end.

(** The errors [validateParam] throws. *)
Definition validation_error (e : Error) : bool :=
  match e with
  | MissingRequired | TypeMismatch | EnumViolation | LengthViolation
  | PatternViolation | RangeViolation => true
  | _ => false
  end.

(** No opening brace in the text. *)
Definition no_open_brace (s : string) : bool :=
  all_chars (fun c => negb (is_char "{" c)) s.

(** The address [httpRequest] resolves for an array of path nodes (lines 202
    to 208). *)
Definition address (n : Nodes) : Url := {|
  url_base := baseUri n;
  url_path := strip_slashes (join "/" (segments n));
  url_query := q ← query n; if is_text q then Some q else None |}.

(** The function [httpRequest] returns for an array in the state [n]. *)
Definition request_for (n : Nodes) (nodes : loc) (m : Method) : Value :=
  Function (Request (address n) nodes m) [].

(** What [.query(q)] stores: the text [qs.stringify] makes of an object, the
    argument itself otherwise (lines 252 to 256). *)
Definition stored_query (q : JSVal) : QueryValue :=
  if isObject q then QStringify q else QValue q.

(** ** The description as the RAML parser gives it

    [sanitizeAST] turns the arrays of resources and of methods into objects
    keyed by route and by verb.  The keys of an object are listed in the
    order they were first set; routes and verbs are taken not to be array
    indices, which the engines list first. *)
Inductive RawResource := mkRaw {
  relativeUri : string;
  raw_uriParameters : option Params;
  raw_methods : option (list Method);
  raw_resources : option (list RawResource)
}.

(** [s.substr(1)] *)
Definition substr1 (s : string) : string :=
  match s with
  | EmptyString => ""
  | String _ rest => rest
  end.

(** [_.object(_.pluck(methods, 'method'), methods)]: each method is set under
    the text of its [method] property, one after the other. *)
Definition methods_object (ms : list Method) : Methods :=
  fold_left (fun result m => set_prop (ToString (method m)) m result) ms [].

(** What [flattenResources] makes of one resource (lines 159 to 167): the
    methods and the resources below are replaced when they are there. *)
Fixpoint flattenResource (r : RawResource) : Resource :=
  match r with
  | mkRaw _ params ms below =>
      mkResource params
        (from_option methods_object [] ms)
        match below with
        | Some resources =>
            fold_left (fun map r' =>
              set_prop (substr1 (relativeUri r')) (flattenResource r') map)
              resources []
        | None => []
        end
  end.

(** [flattenResources] (lines 153 to 174). *)
Definition flattenResources (resources : list RawResource)
  : list (string * Resource) :=
  fold_left (fun map r =>
    set_prop (substr1 (relativeUri r)) (flattenResource r) map) resources [].

(** The route a raw resource is filed under. *)
Definition route_of (r : RawResource) : string := substr1 (relativeUri r).

(** The context once the loop of [attachMethods] over the methods has set,
    for each verb, the function [httpRequest] returns. *)
Definition verbs_onto (n : Nodes) (nodes : loc) (methods : Methods)
    (context : Value) : Value :=
  fold_left (fun c vm => set_member (fst vm) (request_for n nodes (snd vm)) c)
    methods context.

(** The code of a context that is a function. *)
Definition code_of (v : Value) : option Code :=
  match v with
  | Object _ => None
  | Function code _ => Some code
  end.

(** The names declared by a resource, its [templateTags]; none when it has
    no [uriParameters]. *)
Definition templateTags (resource : Resource) : list string :=
  from_option keys [] (uriParameters resource).

(** The array of a route: the array above with the route pushed on it
    (lines 335 and 338). *)
Definition pushed (route : string) (n : Nodes) : Nodes :=
  set_segments (segments n ++ [route]) n.

(** A store with the array of the route [{id}] under the root. *)
Definition id_store : Store :=
  [pushed "{id}" (root_nodes (VStr "http://api.example.com"))].

(** The methods of a resource and the resources below it are keyed without
    repetition, and so on below. *)
Inductive WellKeyed : Resource -> Prop :=
| well_keyed params ms below :
    NoDup (keys ms) -> NoDup (keys below) ->
    Forall (fun entry => WellKeyed (snd entry)) below ->
    WellKeyed (mkResource params ms below).

(** A raw resource with nothing but its address. *)
Definition raw_leaf (uri : string) : RawResource :=
  mkRaw uri None None None.

(** [httpMethods] (lines 189 to 193): every plain verb with a method of that
    name. *)
Definition httpMethods : Methods :=
  map (fun verb => (verb, {| method := VStr verb |})) HTTP_METHODS.

(** The store after one call after the other, each as [f(args...)]; what a
    call returns or throws is dropped. *)
Fixpoint run_calls (calls : list (Value * list JSVal)) (st : Store) : Store :=
  match calls with
  | [] => st
  | (f, args) :: rest => run_calls rest (snd (invoke f args st))
  end.

(** A call that is not a call of the headers helper of the array [l]. *)
Definition spares_headers (l : loc) (call : Value * list JSVal) : Prop :=
  forall routeNodes methods props,
    fst call = Function (HeadersHelper routeNodes methods) props -> l <> routeNodes.

(** Every byte of the text is an ASCII character. *)
Definition is_ascii_text (s : string) : bool :=
  all_chars (fun c => nat_of_ascii c <? 128) s.

(** The text of the one character U+00E9, e with an acute accent: two bytes
    in UTF-8, one UTF-16 code unit. *)
Definition e_acute : string :=
  String (ascii_of_nat 195) (String (ascii_of_nat 169) "").

(** A bound of a description: an integer, or not set. *)
Definition bound (b : option Z) : JSVal := from_option int VUndefined b.

(** No route of the resource or below it is the name of a built-in
    property, and no name a dynamic route is attached under is one. *)
Fixpoint plain_resource (route : string) (resource : Resource) : bool :=
  match resource with
  | mkResource params _ below =>
      negb (built_in route)
      && negb (built_in (routeNameOf route (from_option keys [] params)))
      && (fix all (rs : list (string * Resource)) : bool :=
            match rs with
            | [] => true
            | (route', r) :: rest => plain_resource route' r && all rest
            end) below
  end.

Definition plain_routes (resources : list (string * Resource)) : bool :=
  forallb (fun entry => plain_resource (fst entry) (snd entry)) resources.

(** [route] is the address [uri] without its first character (the address
    itself when it is empty): what [uri.substr(1)] gives. *)
Definition filed_under (uri route : string) : Prop :=
  (uri = "" /\ route = "") \/ exists c, uri = String c route.

(** What [generateClient] does before it attaches the resources (lines 408
    to 427): the array of the root is made, and the object that goes under
    ['@return'] of the client is built on it. *)
Definition client_return (base : JSVal) : M Value :=
  nodes ← alloc (root_nodes base);
  attachMethods nodes (Object []) httpMethods.

(* ===================================================================== *)
(** * Printing an integer and reading it back                             *)
(* ===================================================================== *)

(** [simpl] unfolds the concatenation of texts in what follows. *)
#[local] Arguments String.append !_ _ / : simpl nomatch.

Module NumFacts.
Import Num.

Lemma strip_zeros_length (s : string) :
  String.length (strip_zeros s) <= String.length s.
Proof.
  induction s as [|c r IH]; simpl; [lia|].
  destruct (strip_zeros r); [destruct (Ascii.eqb c "0")|]; simpl in *; lia.
Qed.

(** The zeros taken from the end of the digits are put back by the first
    case of the printing. *)
Lemma strip_zeros_restore (s : string) :
  strip_zeros s +:+ zeros (String.length s - String.length (strip_zeros s)) = s.
Proof.
  induction s as [|c r IH]; simpl; [reflexivity|].
  destruct (strip_zeros r) eqn:E.
  - simpl in IH. rewrite Nat.sub_0_r in IH.
    destruct (Ascii.eqb_spec c "0") as [->|_]; simpl.
    + rewrite IH. reflexivity.
    + rewrite Nat.sub_0_r, IH. reflexivity.
  - simpl in *. rewrite IH. reflexivity.
Qed.

(** The text of a sequence of digits. *)
Abbreviation text_of := NilEmpty.string_of_uint.

Ltac each_digit d :=
  destruct d as [|d|d|d|d|d|d|d|d|d|d].

Lemma text_length (d : Decimal.uint) :
  String.length (text_of d) = Decimal.nb_digits d.
Proof. induction d; simpl; congruence. Qed.

Lemma digits_prefix_acc (d : Decimal.uint) :
  forall acc : positive,
    digits_prefix (Some (Z.pos acc)) (text_of d)
    = Some (Z.pos (Pos.of_uint_acc d acc)).
Proof.
  induction d; intros acc; simpl; try reflexivity;
    unfold digit_of; simpl; rewrite <- IHd; f_equal; f_equal; lia.
Qed.

Lemma digits_prefix_zero (d : Decimal.uint) :
  digits_prefix (Some 0%Z) (text_of d) = Some (Z.of_N (Pos.of_uint d)).
Proof.
  induction d; simpl; try reflexivity; unfold digit_of; simpl;
    try exact IHd; apply digits_prefix_acc.
Qed.

Lemma digits_prefix_none (d : Decimal.uint) :
  d <> Decimal.Nil ->
  digits_prefix None (text_of d) = Some (Z.of_N (Pos.of_uint d)).
Proof.
  intros H. rewrite <- digits_prefix_zero.
  each_digit d; [contradiction|..]; reflexivity.
Qed.

Lemma of_uint_acc_bound (d : Decimal.uint) :
  forall acc : positive,
    (Z.pos acc * 10 ^ Z.of_nat (Decimal.nb_digits d)
     <= Z.pos (Pos.of_uint_acc d acc))%Z.
Proof.
  induction d; intros acc; simpl Decimal.nb_digits; simpl Pos.of_uint_acc;
    [simpl; lia|..];
    rewrite Nat2Z.inj_succ, Z.pow_succ_r by lia;
    (etransitivity; [|apply IHd]);
    pose proof (Z.pow_nonneg 10 (Z.of_nat (Decimal.nb_digits d))) as P;
    nia.
Qed.

(** Reading the text of a sequence of digits gives its value. *)
Lemma parseInt10_text (d : Decimal.uint) :
  d <> Decimal.Nil ->
  parseInt10 (text_of d) = Dec (Z.of_N (Pos.of_uint d)) 0.
Proof.
  intros H.
  assert (E : parseInt10 (text_of d) =
              match digits_prefix None (text_of d) with
              | None => NaN
              | Some z => Dec z 0
              end)
    by (each_digit d; [contradiction|..]; reflexivity).
  rewrite E, (digits_prefix_none d H). reflexivity.
Qed.

Lemma parseInt10_minus_text (d : Decimal.uint) :
  d <> Decimal.Nil ->
  parseInt10 (String "-" (text_of d)) = Dec (- Z.of_N (Pos.of_uint d)) 0.
Proof.
  intros H. unfold parseInt10. simpl skip_white. cbv iota beta.
  rewrite (digits_prefix_none d H). reflexivity.
Qed.

(** The decimal of a positive number does not start with a zero. *)
Lemma to_uint_head (p : positive) :
  match Pos.to_uint p with
  | Decimal.Nil | Decimal.D0 _ => False
  | _ => True
  end.
Proof.
  pose proof (DecimalPos.Unsigned.to_of (Pos.to_uint p)) as E.
  rewrite DecimalPos.Unsigned.of_to in E. simpl in E.
  pose proof (DecimalPos.Unsigned.to_uint_nonnil p) as Hnil.
  pose proof (DecimalPos.Unsigned.to_uint_nonzero p) as Hzero.
  destruct (Pos.to_uint p) as [|l| | | | | | | | |]; try exact I.
  - contradiction.
  - destruct l as [|l|l|l|l|l|l|l|l|l|l];
      [exact (Hzero eq_refl)|..];
      match goal with
      | E : Decimal.D0 ?l = Decimal.unorm (Decimal.D0 ?l) |- _ =>
          change (Decimal.unorm (Decimal.D0 l)) with (Decimal.unorm l) in E;
          assert (Hl : l <> Decimal.Nil) by discriminate;
          pose proof (DecimalFacts.nb_digits_unorm l Hl) as B;
          rewrite <- E in B; simpl in B; lia
      end.
Qed.

(** A positive number is at least the power of ten with one digit less. *)
Lemma to_uint_bound (p : positive) :
  (10 ^ (Z.of_nat (Decimal.nb_digits (Pos.to_uint p)) - 1) <= Z.pos p)%Z.
Proof.
  pose proof (to_uint_head p) as H.
  pose proof (DecimalPos.Unsigned.of_to p) as E.
  destruct (Pos.to_uint p) as [|l|l|l|l|l|l|l|l|l|l]; try contradiction;
    simpl in E; injection E as <-;
    simpl Decimal.nb_digits;
    replace (Z.of_nat (S (Decimal.nb_digits l)) - 1)%Z
      with (Z.of_nat (Decimal.nb_digits l)) by lia;
    (etransitivity; [|apply of_uint_acc_bound]); lia.
Qed.

Lemma to_uint_digits (p : positive) :
  (Z.pos p < 10 ^ 21)%Z -> Decimal.nb_digits (Pos.to_uint p) <= 21.
Proof.
  intros H. pose proof (to_uint_bound p) as B.
  destruct (le_lt_dec (Decimal.nb_digits (Pos.to_uint p)) 21) as [|L]; [assumption|].
  assert (10 ^ 21 <= 10 ^ (Z.of_nat (Decimal.nb_digits (Pos.to_uint p)) - 1))%Z
    by (apply Z.pow_le_mono_r; lia).
  lia.
Qed.

(** A positive integer below [10^21] is printed as its digits. *)
Lemma to_string_digits (p : positive) :
  (Z.pos p < 10 ^ 21)%Z ->
  to_string (Dec (Z.pos p) 0) = text_of (Pos.to_uint p) /\
  to_string (Dec (Z.neg p) 0) = String "-" (text_of (Pos.to_uint p)).
Proof.
  intros H. apply to_uint_digits in H. unfold to_string.
  change (Z.pos p =? 0)%Z with false. change (Z.neg p =? 0)%Z with false.
  change (Z.pos p <? 0)%Z with false. change (Z.neg p <? 0)%Z with true.
  change (digits (Z.abs (Z.pos p))) with (NilZero.string_of_uint (Pos.to_uint p)).
  change (digits (Z.abs (Z.neg p))) with (NilZero.string_of_uint (Pos.to_uint p)).
  assert (E : NilZero.string_of_uint (Pos.to_uint p) = text_of (Pos.to_uint p)).
  { pose proof (DecimalPos.Unsigned.to_uint_nonnil p).
    destruct (Pos.to_uint p); [contradiction|..]; reflexivity. }
  rewrite E. cbv zeta.
  pose proof (strip_zeros_length (text_of (Pos.to_uint p))) as L.
  pose proof (strip_zeros_restore (text_of (Pos.to_uint p))) as R.
  rewrite text_length in *.
  set (s := strip_zeros (text_of (Pos.to_uint p))) in *.
  replace ((Z.of_nat (String.length s)
            <=? Z.of_nat (Decimal.nb_digits (Pos.to_uint p)) - Z.of_nat 0)%Z
           && (Z.of_nat (Decimal.nb_digits (Pos.to_uint p)) - Z.of_nat 0 <=? 21)%Z)
    with true by (symmetry; apply andb_true_iff; split; apply Z.leb_le; lia).
  replace (Z.to_nat (Z.of_nat (Decimal.nb_digits (Pos.to_uint p)) - Z.of_nat 0
                     - Z.of_nat (String.length s)))
    with (Decimal.nb_digits (Pos.to_uint p) - String.length s) by lia.
  rewrite R. split; reflexivity.
Qed.

(** [parseInt] gives back every integer below [10^21] in absolute value. *)
Lemma parseInt10_to_string (z : Z) :
  (Z.abs z < 10 ^ 21)%Z -> parseInt10 (to_string (Dec z 0)) = Dec z 0.
Proof.
  intros H. destruct z as [|p|p]; [reflexivity|..];
    destruct (to_string_digits p H) as [E1 E2];
    pose proof (DecimalPos.Unsigned.to_uint_nonnil p) as Hnil.
  - rewrite E1, (parseInt10_text _ Hnil), DecimalPos.Unsigned.of_to. reflexivity.
  - rewrite E2, (parseInt10_minus_text _ Hnil), DecimalPos.Unsigned.of_to.
    reflexivity.
Qed.

End NumFacts.

(* ===================================================================== *)
(** * Properties of the validator                                         *)
(* ===================================================================== *)

Lemma strict_eq_true (v : JSVal) :
  strict_eq v (VBool true) = true <-> v = VBool true.
Proof.
  destruct v as [| |[]| | | | | |]; simpl; split; intros H; congruence.
Qed.

Lemma strict_eq_text (v : JSVal) (s : string) :
  strict_eq v (VStr s) = true <-> v = VStr s.
Proof.
  destruct v; simpl; split; intros H; try congruence.
  - apply String.eqb_eq in H. congruence.
  - injection H as ->. apply String.eqb_refl.
Qed.

Lemma strict_eq_text_ne (v : JSVal) (s : string) :
  v <> VStr s -> strict_eq v (VStr s) = false.
Proof.
  intros H. destruct (strict_eq v (VStr s)) eqn:E; [|reflexivity].
  apply strict_eq_text in E. contradiction.
Qed.

(** An absent value passes every check but the first. *)
Lemma validateParam_nullish (value : JSVal) (param : Param) :
  is_nullish value = true ->
  validateParam value param =
    if strict_eq (required param) (VBool true) then Throw MissingRequired
    else Ok true.
Proof.
  intros H. unfold validateParam. rewrite H.
  destruct (strict_eq (required param) (VBool true)); reflexivity.
Qed.

(** A present value passes the first check. *)
Lemma validateParam_present (value : JSVal) (param : Param) :
  is_nullish value = false ->
  throw_if (strict_eq (required param) (VBool true) && is_nullish value)
    MissingRequired = Ok tt.
Proof. intros ->. rewrite andb_false_r. reflexivity. Qed.

(** [parseInt] answers [NaN] or an integer. *)
Lemma parseInt10_cases (s : string) :
  Num.parseInt10 s = Num.NaN \/ exists z, Num.parseInt10 s = Num.Dec z 0.
Proof.
  unfold Num.parseInt10.
  destruct (match Num.skip_white s with
            | String "-" r => (true, r)
            | String "+" r => (false, r)
            | _ => (false, Num.skip_white s)
            end) as [neg body].
  destruct (Num.digits_prefix None body); eauto.
Qed.

Lemma eqb_integer (n : number) (z : Z) :
  Num.eqb n (Num.Dec z 0) = true -> Num.denotes n z.
Proof.
  unfold Num.eqb. destruct n as [|[]|m k]; simpl; try discriminate.
  destruct (m * 10 ^ Z.of_nat 0 ?= z * 10 ^ Z.of_nat k)%Z eqn:E; try discriminate.
  intros _. apply Z.compare_eq in E. simpl in E. lia.
Qed.

(** The test of line 71 lets through integers only. *)
Lemma parseInt_same_integer (value : JSVal) :
  strict_eq value (VNum (parseInt value)) = true ->
  exists z, value_denotes value z.
Proof.
  destruct value; simpl; try discriminate.
  intros H. destruct (parseInt10_cases (ToString (VNum n))) as [E|[z E]];
    unfold parseInt in H; rewrite E in H.
  - unfold Num.eqb in H. destruct n as [|[]|]; discriminate.
  - exists z. apply eqb_integer. exact H.
Qed.

Lemma compare_integers (a b : Z) :
  Num.compare (Num.of_Z a) (Num.of_Z b) = Some (a ?= b)%Z.
Proof. simpl. f_equal. f_equal; lia. Qed.

(** On integers the range checks are the comparisons of [Z]. *)
Lemma below_integers (a b : Z) : below (int a) (int b) = (a <? b)%Z.
Proof.
  unfold below, int, js_lt, Num.ltb. rewrite compare_integers. simpl.
  unfold Z.ltb. destruct (a ?= b)%Z; reflexivity.
Qed.

Lemma above_integers (a b : Z) : above (int a) (int b) = (a >? b)%Z.
Proof.
  unfold above, int, js_gt, Num.gtb. rewrite compare_integers. simpl.
  unfold Z.gtb. destruct (a ?= b)%Z; reflexivity.
Qed.

(** What [validateParam] does with a present value for an integer. *)
Lemma integer_branch (value : JSVal) (param : Param) :
  type param = VStr "integer" -> is_nullish value = false ->
  validateParam value param =
    if negb (strict_eq value (VNum (parseInt value))) then Throw TypeMismatch
    else if below value (minimum param) then Throw RangeViolation
    else if above value (maximum param) then Throw RangeViolation
    else Ok true.
Proof.
  intros Ht Hv. unfold validateParam.
  rewrite (validateParam_present _ _ Hv), Hv, Ht. simpl.
  destruct (strict_eq value (VNum (parseInt value))); simpl; [|reflexivity].
  destruct (below value (minimum param)); simpl; [reflexivity|].
  destruct (above value (maximum param)); reflexivity.
Qed.

(** C4: with [required] exactly [true], validating an absent value (null or
    undefined) fails with MissingRequired whatever the other facets are; with
    [required] unset or [false], validating an absent value succeeds, and no
    other facet is looked at. *)
Theorem validateParam_absent (value : JSVal) (param : Param)
    (Habsent : is_nullish value = true) :
  (required param = VBool true ->
     validateParam value param = Throw MissingRequired) /\
  (required param = VUndefined \/ required param = VBool false ->
     validateParam value param = Ok true).
Proof.
  rewrite (validateParam_nullish _ _ Habsent). split.
  - intros ->. reflexivity.
  - intros [-> | ->]; reflexivity.
Qed.

Lemma validateParam_absent_witness :
  validateParam VNull
    (with_required (VBool true) (integer_at_most 100)) = Throw MissingRequired /\
  validateParam VUndefined (with_required (VBool false) (integer_at_most 100))
    = Ok true.
Proof.
  split.
  - apply (validateParam_absent VNull
             (with_required (VBool true) (integer_at_most 100))); reflexivity.
  - apply (validateParam_absent VUndefined
             (with_required (VBool false) (integer_at_most 100)));
      [reflexivity | right; reflexivity].
Defined.

(** The test of line 71 lets through every integer below [10^21] in
    absolute value. *)
Lemma parseInt_same_small (z : Z) :
  (Z.abs z < 10 ^ 21)%Z -> strict_eq (int z) (VNum (parseInt (int z))) = true.
Proof.
  intros H.
  change (parseInt (int z)) with (Num.parseInt10 (Num.to_string (Num.Dec z 0))).
  rewrite (NumFacts.parseInt10_to_string z H).
  unfold int, Num.of_Z, strict_eq, Num.eqb, Num.compare.
  rewrite Z.compare_refl. reflexivity.
Qed.

(** From [10^21] on a number is printed with an exponent, of which
    [parseInt] reads the first digit: such an integer does not pass. *)
Lemma parseInt_large :
  parseInt (int (10 ^ 21)) = Num.of_Z 1 /\
  validateParam (int (10 ^ 21)) (with_type (VStr "integer") no_facets)
    = Throw TypeMismatch.
Proof. split; vm_compute; reflexivity. Qed.

(** C5: the claim does not hold of the code at the integer [10^21].  The
    value is an integer, exactly representable, yet for every description of
    type integer its validation fails with TypeMismatch, whatever the bounds:
    from [10^21] on a number is printed with an exponent (['1e+21']), of
    which [parseInt] reads the first digit only, so the test of line 71, whose
    comment says that it validates that the value is an integer, rejects
    it. *)
Theorem integer_1e21_rejected (param : Param)
    (Htype : type param = VStr "integer") :
  value_denotes (int (10 ^ 21)) (10 ^ 21) /\
  ToString (int (10 ^ 21)) = "1e+21" /\
  parseInt (int (10 ^ 21)) = Num.of_Z 1 /\
  validateParam (int (10 ^ 21)) param = Throw TypeMismatch.
Proof.
  split; [simpl; lia|]. split; [vm_compute; reflexivity|].
  split; [vm_compute; reflexivity|].
  rewrite (integer_branch (int (10 ^ 21)) _ Htype eq_refl).
  replace (strict_eq (int (10 ^ 21)) (VNum (parseInt (int (10 ^ 21))))) with false
    by (vm_compute; reflexivity).
  reflexivity.
Qed.

Lemma integer_1e21_rejected_witness :
  value_denotes (int (10 ^ 21)) (10 ^ 21) /\
  ToString (int (10 ^ 21)) = "1e+21" /\
  parseInt (int (10 ^ 21)) = Num.of_Z 1 /\
  validateParam (int (10 ^ 21)) (integer_at_most (10 ^ 22)) = Throw TypeMismatch.
Proof. apply (integer_1e21_rejected (integer_at_most (10 ^ 22))). reflexivity. Defined.

(** [MissingRequired] is thrown by the first check only. *)
Lemma validateParam_missing (value : JSVal) (param : Param) :
  validateParam value param = Throw MissingRequired <->
  required param = VBool true /\ is_nullish value = true.
Proof.
  rewrite <- strict_eq_true. destruct (is_nullish value) eqn:Hv.
  - rewrite (validateParam_nullish _ _ Hv).
    destruct (strict_eq (required param) (VBool true)); intuition congruence.
  - split; [|intros [_ ?]; discriminate].
    unfold validateParam. rewrite (validateParam_present _ _ Hv), Hv. simpl.
    destruct (strict_eq (type param) (VStr "string")).
    { destruct value; simpl; try discriminate.
      destruct (outside_enum _ _); simpl; try discriminate.
      destruct (shorter_than _ _); simpl; try discriminate.
      destruct (longer_than _ _); simpl; try discriminate.
      destruct (fails_pattern _ _); simpl; discriminate. }
    destruct (strict_eq (type param) (VStr "integer")
              || strict_eq (type param) (VStr "number")).
    { destruct (strict_eq (type param) (VStr "number")).
      - destruct (is_number value); simpl; try discriminate.
        destruct (below _ _); simpl; try discriminate.
        destruct (above _ _); simpl; discriminate.
      - destruct (strict_eq value _); simpl; try discriminate.
        destruct (below _ _); simpl; try discriminate.
        destruct (above _ _); simpl; discriminate. }
    destruct (strict_eq (type param) (VStr "date")).
    { destruct value; simpl; discriminate. }
    destruct (strict_eq (type param) (VStr "boolean")).
    { destruct value; simpl; discriminate. }
    discriminate.
Qed.

(** C8: a parameter counts as required only when its [required] facet is
    the boolean [true]: MissingRequired is raised exactly for an absent value
    with that facet, and with a truthy facet that is no boolean (1, 'yes')
    validating an absent value succeeds. *)
Theorem validateParam_required_strict (value : JSVal) (param : Param)
    (Htruthy : truthy (required param) = true)
    (Hother : is_boolean (required param) = false)
    (Habsent : is_nullish value = true) :
  validateParam value param = Ok true /\
  (forall v p, validateParam v p = Throw MissingRequired <->
     required p = VBool true /\ is_nullish v = true).
Proof.
  split; [|apply validateParam_missing].
  rewrite (validateParam_nullish _ _ Habsent).
  destruct (required param); simpl in *; congruence.
Qed.

Lemma validateParam_required_strict_witness :
  validateParam VNull (with_required (int 1) (integer_at_most 100)) = Ok true /\
  validateParam VUndefined (with_required (VStr "yes") (integer_at_most 100))
    = Ok true.
Proof.
  split.
  - apply (validateParam_required_strict VNull
             (with_required (int 1) (integer_at_most 100))); reflexivity.
  - apply (validateParam_required_strict VUndefined
             (with_required (VStr "yes") (integer_at_most 100))); reflexivity.
Defined.

(** What [validateParam] does with a text for a parameter of type string. *)
Lemma string_branch (s : string) (param : Param) :
  type param = VStr "string" ->
  validateParam (VStr s) param =
    if outside_enum (enum param) (VStr s) then Throw EnumViolation
    else if shorter_than s (minLength param) then Throw LengthViolation
    else if longer_than s (maxLength param) then Throw LengthViolation
    else if fails_pattern s (pattern param) then Throw PatternViolation
    else Ok true.
Proof.
  intros Ht. unfold validateParam. rewrite Ht. simpl.
  rewrite andb_false_r. simpl.
  destruct (outside_enum _ _); simpl; [reflexivity|].
  destruct (shorter_than _ _); simpl; [reflexivity|].
  destruct (longer_than _ _); simpl; [reflexivity|].
  destruct (fails_pattern _ _); reflexivity.
Qed.

(** The pattern is read in the branch for strings only, and there only when
    it is a regular expression. *)
Lemma validateParam_pattern_unused (value : JSVal) (param : Param) (pat : JSVal) :
  is_regexp (pattern param) = false -> is_regexp pat = false ->
  validateParam value (with_pattern pat param) = validateParam value param.
Proof.
  intros H1 H2. unfold validateParam. simpl.
  destruct (pattern param); try discriminate;
    destruct pat; try discriminate; reflexivity.
Qed.

(** C9: when the [pattern] facet of a string parameter is no regular
    expression (a plain text, say), [validateParam] never fails with
    PatternViolation, and every value that satisfies the other facets, the
    value that validates against the same parameter without a pattern,
    validates. *)
Theorem validateParam_pattern_regexp_only (value : JSVal) (param : Param)
    (Htype : type param = VStr "string")
    (Hpattern : is_regexp (pattern param) = false) :
  validateParam value param <> Throw PatternViolation /\
  validateParam value param = validateParam value (with_pattern VUndefined param) /\
  (validateParam value (with_pattern VUndefined param) = Ok true ->
   validateParam value param = Ok true).
Proof.
  assert (E : validateParam value (with_pattern VUndefined param)
              = validateParam value param)
    by (apply validateParam_pattern_unused; [exact Hpattern | reflexivity]).
  rewrite E. repeat split; [|tauto].
  destruct (is_nullish value) eqn:Hv.
  - rewrite (validateParam_nullish _ _ Hv).
    destruct (strict_eq _ _); discriminate.
  - unfold validateParam.
    rewrite (validateParam_present _ _ Hv), Hv, Htype. simpl.
    destruct value; simpl; try discriminate.
    destruct (outside_enum _ _); simpl; try discriminate.
    destruct (shorter_than _ _); simpl; try discriminate.
    destruct (longer_than _ _); simpl; try discriminate.
    destruct (pattern param); simpl in *; discriminate.
Qed.

Lemma validateParam_pattern_regexp_only_witness :
  validateParam (VStr "abc")
    (with_pattern (VStr "^[0-9]+$") (with_type (VStr "string") no_facets))
  = Ok true.
Proof.
  apply (validateParam_pattern_regexp_only (VStr "abc")
           (with_pattern (VStr "^[0-9]+$") (with_type (VStr "string") no_facets)));
    reflexivity.
Defined.

Lemma bind_returns_true {A : Type} (r : Result A) (b : bool) :
  (r ;; Ok true) = Ok b -> b = true.
Proof. destruct r; simpl; congruence. Qed.

(** C10: for a parameter whose type is none of string, integer, number,
    date and boolean, every present value is accepted, whatever it is and
    whatever the facets say; and when [validateParam] does not throw it
    returns [true]. *)
Theorem validateParam_unknown_type (value : JSVal) (param : Param)
    (Htype : forall t, In t known_types -> type param <> VStr t)
    (Hpresent : is_nullish value = false) :
  validateParam value param = Ok true /\
  (forall v p b, validateParam v p = Ok b -> b = true).
Proof.
  split.
  - unfold validateParam. rewrite (validateParam_present _ _ Hpresent), Hpresent.
    simpl. rewrite !strict_eq_text_ne; [reflexivity|..];
      apply Htype; simpl; tauto.
  - intros v p b. unfold validateParam.
    destruct (throw_if (_ && _) _); simpl; [|discriminate].
    apply bind_returns_true.
Qed.

Lemma validateParam_unknown_type_witness :
  validateParam (VStr "anything")
    (with_maximum (int 1) (with_type (VStr "file") no_facets)) = Ok true.
Proof.
  apply (validateParam_unknown_type (VStr "anything")
           (with_maximum (int 1) (with_type (VStr "file") no_facets))).
  - intros t Ht. simpl in Ht.
    destruct Ht as [<-|[<-|[<-|[<-|[<-|[]]]]]]; discriminate.
  - reflexivity.
Defined.

(* ===================================================================== *)
(** * Properties of the template engine                                   *)
(* ===================================================================== *)

(** A text in which the pattern matches nowhere is left as it is, and the
    callback is not run. *)
Lemma replace_no_tag (alts : list string) (callback : nat -> string -> Result string)
    (index : nat) (text : string) :
  has_tag alts text = false -> replace alts callback 0 index text = Ok text.
Proof.
  induction text as [|c rest IH]; simpl; [reflexivity|].
  destruct (find_tag alts (String c rest)); simpl; [discriminate|].
  intros H. rewrite (IH H). reflexivity.
Qed.

(** C6: with a parameter [id] whose description the text 42 satisfies, the
    template /{id} becomes /42 with the object [{id: '42'}] for context, and
    /42 as well with the array [['42']]. *)
Theorem template_single_tag (spec : Param)
    (Hvalid : validateParam (VStr "42") spec = Ok true) :
  template "/{id}" (Some [("id", spec)]) (CtxObject [("id", VStr "42")]) = Ok "/42" /\
  template "/{id}" (Some [("id", spec)]) (CtxArray [VStr "42"]) = Ok "/42".
Proof.
  split; cbv -[validateParam]; rewrite Hvalid; reflexivity.
Qed.

Lemma template_single_tag_witness :
  template "/{id}" (Some [("id", required_string)]) (CtxObject [("id", VStr "42")])
    = Ok "/42" /\
  template "/{id}" (Some [("id", required_string)]) (CtxArray [VStr "42"])
    = Ok "/42".
Proof. apply (template_single_tag required_string). reflexivity. Defined.

(** C7: the claim does not hold of the code when the parameter object is
    empty and the text contains [{}].  An empty object declares nothing, yet
    the guard of line 111 lets it through; the pattern is then [{()}], which
    matches [{}], and the callback validates against the undefined
    [params['']] and throws, whatever the context.  With the parameter object
    absent, and with one that declares some other name, the same text comes
    back as it is. *)
Theorem template_empty_object_throws (context : Context) (name : string)
    (spec : Param) (Hname : name <> "") :
  declared (Some []) = [] /\
  template "{}" (Some []) context = Throw UndefinedParam /\
  template "{}" None context = Ok "{}" /\
  template "{}" (Some [(name, spec)]) context = Ok "{}".
Proof.
  split; [reflexivity|]. split; [destruct context; reflexivity|].
  split; [reflexivity|].
  assert (find_tag [name] "{}" = None) as E.
  { destruct name as [|c rest]; [contradiction|].
    cbn [find_tag]. unfold tag_text.
    change ("{" +:+ String c rest +:+ "}")
      with (String "{" (String c (rest +:+ "}"))).
    cbn [String.prefix]. simpl.
    destruct (ascii_dec c "}"); [|reflexivity].
    subst c. destruct rest; reflexivity. }
  assert (has_tag [name] "{}" = false) as H.
  { cbn [has_tag]. rewrite E. reflexivity. }
  unfold template. destruct context; apply replace_no_tag; exact H.
Qed.

Lemma template_empty_object_throws_witness :
  declared (Some []) = [] /\
  template "{}" (Some []) (CtxArray []) = Throw UndefinedParam /\
  template "{}" None (CtxArray []) = Ok "{}" /\
  template "{}" (Some [("id", required_string)]) (CtxArray []) = Ok "{}".
Proof.
  apply (template_empty_object_throws (CtxArray []) "id" required_string).
  discriminate.
Defined.


(* ===================================================================== *)
(** * The pattern of dynamic routes                                       *)
(* ===================================================================== *)

Lemma append_nil_r (s : string) : s +:+ "" = s.
Proof. induction s as [|c s IH]; simpl; [|rewrite IH]; reflexivity. Qed.

Lemma append_assoc (s t u : string) : (s +:+ t) +:+ u = s +:+ (t +:+ u).
Proof. induction s as [|c s IH]; simpl; [|rewrite IH]; reflexivity. Qed.

Lemma append_eq_nil (s t : string) : s +:+ t = "" -> s = "" /\ t = "".
Proof. destruct s; simpl; [tauto | discriminate]. Qed.

Module RegexFacts.
Import Regex.

Lemma nullable_matches (r : re) : nullable r = true -> matches r "".
Proof.
  induction r; simpl; intros H; try discriminate.
  - constructor.
  - apply andb_true_iff in H as [H1 H2].
    change "" with ("" +:+ ""). constructor; auto.
  - apply orb_true_iff in H as [H|H]; [apply m_alt_l | apply m_alt_r]; auto.
  - constructor.
Qed.

Lemma matches_nullable (r : re) (s : string) :
  matches r s -> s = "" -> nullable r = true.
Proof.
  induction 1; simpl; intros E; try reflexivity; try discriminate.
  - apply append_eq_nil in E as [-> ->]. rewrite IHmatches1, IHmatches2; reflexivity.
  - rewrite IHmatches; auto.
  - rewrite IHmatches; auto using orb_true_r.
Qed.

(** Moves the first character of a text inside its first part. *)
Ltac cons_inside :=
  match goal with
  | |- matches _ (String ?c (?u +:+ ?v)) =>
      change (String c (u +:+ v)) with (String c u +:+ v)
  end.

Lemma deriv_matches (c : ascii) (r : re) :
  forall s, matches (deriv c r) s -> matches r (String c s).
Proof.
  induction r; simpl; intros t H.
  - inversion H.
  - inversion H.
  - destruct (p c) eqn:E; inversion H; subst. constructor. exact E.
  - destruct (nullable r1) eqn:N.
    + inversion H; subst.
      * match goal with H' : matches (Seq _ _) _ |- _ => inversion H'; subst end.
        cons_inside. constructor; auto.
      * change (String c t) with ("" +:+ String c t).
        constructor; auto using nullable_matches.
    + inversion H; subst. cons_inside. constructor; auto.
  - inversion H; subst; [apply m_alt_l | apply m_alt_r]; auto.
  - inversion H; subst. cons_inside. constructor; auto.
Qed.

Lemma matches_deriv (r : re) (t : string) :
  matches r t -> forall c s, t = String c s -> matches (deriv c r) s.
Proof.
  induction 1; intros a w E; simpl.
  - discriminate.
  - injection E as -> <-. rewrite H. constructor.
  - destruct u as [|b u']; simpl in E.
    + subst v. rewrite (matches_nullable _ _ H eq_refl).
      apply m_alt_r. eauto.
    + injection E as -> <-.
      assert (matches (Seq (deriv a r) s) (u' +:+ v))
        by (constructor; eauto).
      destruct (nullable r); [apply m_alt_l|]; assumption.
  - apply m_alt_l; eauto.
  - apply m_alt_r; eauto.
  - discriminate.
  - destruct u as [|b u']; simpl in E.
    + subst v. apply (IHmatches2 _ _ eq_refl).
    + injection E as -> <-. constructor; eauto.
Qed.

(** The test by derivatives decides the language of the pattern. *)
Lemma test_matches (s : string) : forall r, test r s = true <-> matches r s.
Proof.
  induction s as [|c s IH]; intros r; simpl.
  - split; [apply nullable_matches | intros H; apply (matches_nullable _ _ H eq_refl)].
  - rewrite IH. split; [apply deriv_matches | intros H; apply (matches_deriv _ _ H _ _ eq_refl)].
Qed.

Lemma star_class (p : ascii -> bool) (s : string) :
  matches (Star (Class p)) s <-> all_chars p s = true.
Proof.
  split.
  - intros H. remember (Star (Class p)) as r eqn:E.
    induction H; try discriminate; [reflexivity|].
    injection E as ->. specialize (IHmatches2 eq_refl).
    inversion H; subst. simpl. rewrite IHmatches2.
    match goal with H' : p _ = true |- _ => rewrite H' end. reflexivity.
  - induction s as [|c s IH]; simpl; intros H; [constructor|].
    apply andb_true_iff in H as [Hc Hs].
    change (String c s) with (String c "" +:+ s).
    constructor; [constructor; exact Hc | auto].
Qed.

Lemma plus_class (p : ascii -> bool) (s : string) :
  matches (Plus (Class p)) s <-> s <> "" /\ all_chars p s = true.
Proof.
  unfold Plus. split.
  - intros H. inversion H; subst.
    match goal with H' : matches (Class _) _ |- _ => inversion H'; subst end.
    match goal with H' : matches (Star _) _ |- _ => apply star_class in H' end.
    simpl. split; [discriminate|]. apply andb_true_iff. auto.
  - intros [Hne H]. destruct s as [|c s]; [contradiction|].
    simpl in H. apply andb_true_iff in H as [Hc Hs].
    change (String c s) with (String c "" +:+ s).
    constructor; [constructor; exact Hc | apply star_class; exact Hs].
Qed.

End RegexFacts.

Lemma is_char_eq (a c : ascii) : is_char a c = true <-> c = a.
Proof. unfold is_char. rewrite Ascii.eqb_eq. split; congruence. Qed.

Section Groups.
Import Regex RegexFacts.

Lemma group_matches (g : string) :
  matches tag_re g <-> exists name, tag_name name /\ g = tag_text name.
Proof.
  unfold tag_re, tag_name, tag_text. split.
  - intros H. inversion H as [| |? ? a w Ha Hw| | | |]; subst.
    inversion Ha as [|? x Hx| | | | |]; subst.
    inversion Hw as [| |? ? b z Hb Hz| | | |]; subst.
    inversion Hz as [|? y Hy| | | | |]; subst.
    apply is_char_eq in Hx, Hy. subst.
    apply plus_class in Hb. exists b. split; [exact Hb | reflexivity].
  - intros (name & Hname & ->).
    change ("{" +:+ name +:+ "}") with (String "{" "" +:+ (name +:+ String "}" "")).
    constructor; [constructor; reflexivity|].
    constructor; [apply plus_class; exact Hname | constructor; reflexivity].
Qed.

Lemma star_groups (s : string) :
  matches (Star tag_re) s <->
  exists names, Forall tag_name names /\ s = concat_all (map tag_text names).
Proof.
  split.
  - intros H. remember (Star tag_re) as r eqn:E.
    induction H; try discriminate.
    + exists []. split; [constructor | reflexivity].
    + injection E as ->. destruct (IHmatches2 eq_refl) as (names & Hall & ->).
      apply group_matches in H as (name & Hname & ->).
      exists (name :: names). split; [constructor; assumption | reflexivity].
  - intros (names & Hall & ->).
    induction Hall as [|name names Hname _ IH]; [constructor|].
    change (concat_all (map tag_text (name :: names)))
      with (tag_text name +:+ concat_all (map tag_text names)).
    constructor; [|exact IH]. apply group_matches. eauto.
Qed.

(** The pattern of line 343 accepts the routes of [RouteShape], and no
    other. *)
Lemma route_re_shape (route : string) :
  test route_re route = true <-> RouteShape route.
Proof.
  rewrite test_matches. unfold route_re, RouteShape, Shape. split.
  - intros H. inversion H as [| |? ? u v Hu Hv| | | |]; subst.
    apply star_class in Hu.
    inversion Hv as [| |? ? g w Hg Hw| | | |]; subst.
    apply group_matches in Hg as (name & Hname & ->).
    apply star_groups in Hw as (names & Hall & ->).
    exists u, (name :: names). repeat split; try assumption.
    + discriminate.
    + constructor; assumption.
  - intros (prefix & names & -> & Hp & Hne & Hall).
    constructor; [apply star_class; exact Hp|].
    destruct names as [|name names]; [contradiction|].
    inversion Hall; subst.
    change (concat_all (map tag_text (name :: names)))
      with (tag_text name +:+ concat_all (map tag_text names)).
    constructor; [apply group_matches; eauto | apply star_groups; eauto].
Qed.

End Groups.

(** ** The name of a dynamic route *)

Lemma indexOf_after (c : ascii) (prefix rest : string) :
  all_chars (fun x => negb (is_char c x)) prefix = true ->
  indexOf c (prefix +:+ String c rest) = Some (String.length prefix).
Proof.
  induction prefix as [|x prefix IH]; simpl.
  - intros _. rewrite Ascii.eqb_refl. reflexivity.
  - intros H. apply andb_true_iff in H as [Hx Hp]. rewrite (IH Hp).
    unfold is_char in Hx. rewrite Ascii.eqb_sym. 
    destruct (Ascii.eqb c x); [discriminate | reflexivity].
Qed.

Lemma substring_prefix (prefix rest : string) :
  String.substring 0 (String.length prefix) (prefix +:+ rest) = prefix.
Proof.
  induction prefix as [|x prefix IH]; simpl.
  - destruct rest; reflexivity.
  - rewrite IH. reflexivity.
Qed.

(** [route.substr(0, route.indexOf('{'))] is the text before the first
    opening brace. *)
Lemma before_brace_prefix (prefix rest : string) :
  all_chars (fun x => negb (is_char "{" x)) prefix = true ->
  before_brace (prefix +:+ String "{" rest) = prefix.
Proof.
  intros H. unfold before_brace. rewrite (indexOf_after _ _ _ H).
  apply substring_prefix.
Qed.

(** With a static text before its first brace, a route is named by that
    text. *)
Lemma routeNameOf_prefix (prefix rest : string) (templateTags : list string) :
  prefix <> "" ->
  all_chars (fun x => negb (is_char "{" x)) prefix = true ->
  routeNameOf (prefix +:+ String "{" rest) templateTags = prefix.
Proof.
  intros Hne H. unfold routeNameOf.
  destruct templateTags as [|tag [|]]; try (apply before_brace_prefix; exact H).
  destruct (String.eqb_spec (tag_text tag) (prefix +:+ String "{" rest)) as [E|_];
    [|apply before_brace_prefix; exact H].
  destruct prefix as [|x prefix]; [contradiction|].
  simpl in H. apply andb_true_iff in H as [Hx _].
  unfold tag_text in E. simpl in E. injection E as <- _. discriminate Hx.
Qed.

(** A route that is one tag and nothing else is named by the tag. *)
Lemma routeNameOf_bare (tag : string) : routeNameOf (tag_text tag) [tag] = tag.
Proof. unfold routeNameOf. rewrite String.eqb_refl. reflexivity. Qed.

(* ===================================================================== *)
(** * Building the client only adds arrays                                *)
(* ===================================================================== *)

Lemma run_bind {A B : Type} (m : M A) (f : A -> M B) (st : Store) :
  (m ≫= f) st =
    match m st with
    | (Ok a, st') => f a st'
    | (Throw e, st') => (Throw e, st')
    end.
Proof. reflexivity. Qed.

Lemma run_fmap {A B : Type} (f : A -> B) (m : M A) (st : Store) :
  (f <$> m) st =
    match m st with
    | (Ok a, st') => (Ok (f a), st')
    | (Throw e, st') => (Throw e, st')
    end.
Proof. reflexivity. Qed.

(** ** Whether it returns or throws, a computation only adds arrays *)

Lemma extends_ret {A : Type} (a : A) : Extends (mret a).
Proof. intros st. exists (Ok a), []. rewrite app_nil_r. reflexivity. Qed.

Lemma extends_throw {A : Type} (e : Error) : Extends (throw (A := A) e).
Proof. intros st. exists (Throw e), []. rewrite app_nil_r. reflexivity. Qed.

Lemma extends_bind {A B : Type} (m : M A) (f : A -> M B) :
  Extends m -> (forall a, Extends (f a)) -> Extends (m ≫= f).
Proof.
  intros Hm Hf st. destruct (Hm st) as ([a|e] & ext & E); rewrite run_bind, E.
  - destruct (Hf a (st ++ ext)) as (r & ext' & E').
    exists r, (ext ++ ext'). rewrite E', app_assoc. reflexivity.
  - exists (Throw e), ext. reflexivity.
Qed.

Lemma extends_fmap {A B : Type} (f : A -> B) (m : M A) :
  Extends m -> Extends (f <$> m).
Proof.
  intros Hm st. destruct (Hm st) as ([a|e] & ext & E); rewrite run_fmap, E;
    eexists _, ext; reflexivity.
Qed.

Lemma extends_read (l : loc) : Extends (read l).
Proof. intros st. eexists _, []. rewrite app_nil_r. reflexivity. Qed.

Lemma extends_alloc (n : Nodes) : Extends (alloc n).
Proof. intros st. eexists _, _. reflexivity. Qed.

(** An array that was just made can be written: the arrays before it are
    as they were. *)
Lemma alloc_write_run {B : Type} (n x : Nodes) (k : loc -> M B) (st : Store) :
  (l ← alloc n; write l x;; k l) st = k (length st) (st ++ [x]).
Proof.
  change ((l ← alloc n; write l x;; k l) st)
    with (k (length st) (<[length st := x]> (st ++ [n]))).
  rewrite insert_app_r_alt, Nat.sub_diag by lia. reflexivity.
Qed.

Lemma extends_alloc_write {B : Type} (n x : Nodes) (k : loc -> M B) :
  (forall l, Extends (k l)) ->
  Extends (l ← alloc n; write l x;; k l).
Proof.
  intros Hk st. rewrite alloc_write_run.
  destruct (Hk (length st) (st ++ [x])) as (b & ext & E).
  exists b, (x :: ext). rewrite E, <- app_assoc. reflexivity.
Qed.

Create HintDb extends.

#[local] Hint Resolve extends_ret extends_throw extends_read extends_alloc
  : extends.

(** Splits a sequence of steps into its steps. *)
Ltac extends :=
  repeat first
    [ lazymatch goal with
      | |- Extends (mbind _ _) =>
          first [ apply extends_alloc_write; intros ?
                | apply extends_bind; [|intros ?] ]
      | |- Extends (let _ := _ in _) => cbv zeta
      | |- Extends (if ?c then _ else _) => destruct c
      end
    | solve [auto with extends] ].

Lemma extends_httpRequest (nodes : loc) (m : Method) :
  Extends (httpRequest nodes m).
Proof. unfold httpRequest. extends. Qed.

#[local] Hint Resolve extends_httpRequest : extends.

Lemma extends_attachVerbs (methods : Methods) :
  forall nodes context, Extends (attachVerbs nodes context methods).
Proof.
  induction methods as [|[verb m] rest IH]; intros nodes context; simpl; extends.
Qed.

#[local] Hint Resolve extends_attachVerbs : extends.

Lemma extends_attachQuery (self : loc -> Value -> Methods -> M Value)
    (nodes : loc) (context : Value) (methods : Methods) :
  (forall l c m, Extends (self l c m)) ->
  Extends (attachQuery self nodes context methods).
Proof.
  intros Hself. unfold attachQuery. extends.
Qed.

Lemma extends_attachHeaders (self : loc -> Value -> Methods -> M Value)
    (nodes : loc) (context : Value) (methods : Methods) :
  (forall l c m, Extends (self l c m)) ->
  Extends (attachHeaders self nodes context methods).
Proof.
  intros Hself. unfold attachHeaders. extends.
Qed.

Lemma extends_attachMethods_fuel (fuel : nat) :
  forall nodes context methods,
    Extends (attachMethods_fuel fuel nodes context methods).
Proof.
  induction fuel as [|fuel IH]; intros nodes context methods; simpl.
  - extends.
  - extends.
    + apply extends_attachQuery, IH.
    + apply extends_attachHeaders, IH.
Qed.

Lemma extends_attachMethods (nodes : loc) (context : Value) (methods : Methods) :
  Extends (attachMethods nodes context methods).
Proof. apply extends_attachMethods_fuel. Qed.

#[local] Hint Resolve extends_attachMethods : extends.

(** ** On an array with a text for base address, building returns *)

Lemma has_base_valid (st : Store) (l : loc) : has_base st l -> l < length st.
Proof.
  unfold has_base, at_loc. intros H.
  destruct (st !! l) eqn:E; [|discriminate].
  apply lookup_lt_Some in E. exact E.
Qed.

Lemma at_loc_app (st ext : Store) (l : loc) :
  l < length st -> at_loc (st ++ ext) l = at_loc st l.
Proof. intros H. unfold at_loc. rewrite lookup_app_l by exact H. reflexivity. Qed.

Lemma at_loc_new (st : Store) (n : Nodes) : at_loc (st ++ [n]) (length st) = n.
Proof. unfold at_loc. rewrite list_lookup_middle by reflexivity. reflexivity. Qed.

Lemma has_base_app (st ext : Store) (l : loc) :
  has_base st l -> has_base (st ++ ext) l.
Proof.
  intros H. unfold has_base. rewrite at_loc_app; [exact H|].
  apply has_base_valid, H.
Qed.

Lemma has_base_new (st : Store) (n : Nodes) :
  is_string (baseUri n) = true -> has_base (st ++ [n]) (length st).
Proof. intros H. unfold has_base. rewrite at_loc_new. exact H. Qed.

Lemma builds_ret {A : Type} (l : loc) (a : A) : Builds l (mret a).
Proof. intros st _. exists a, []. rewrite app_nil_r. reflexivity. Qed.

Lemma builds_bind {A B : Type} (l : loc) (m : M A) (f : A -> M B) :
  Builds l m -> (forall a, Builds l (f a)) -> Builds l (m ≫= f).
Proof.
  intros Hm Hf st Hl. destruct (Hm st Hl) as (a & ext & E).
  rewrite run_bind, E.
  destruct (Hf a (st ++ ext) (has_base_app st ext l Hl)) as (b & ext' & E').
  exists b, (ext ++ ext'). rewrite E', app_assoc. reflexivity.
Qed.

Lemma builds_fmap {A B : Type} (l : loc) (f : A -> B) (m : M A) :
  Builds l m -> Builds l (f <$> m).
Proof.
  intros Hm st Hl. destruct (Hm st Hl) as (a & ext & E).
  exists (f a), ext. rewrite run_fmap, E. reflexivity.
Qed.

(** What is read from the array has the base of the array. *)
Lemma builds_read {B : Type} (l : loc) (k : Nodes -> M B) :
  (forall n, is_string (baseUri n) = true -> Builds l (k n)) ->
  Builds l (n ← read l; k n).
Proof. intros Hk st Hl. exact (Hk (at_loc st l) Hl st Hl). Qed.

(** A copy of an array has its base, and what follows is built on the
    copy. *)
Lemma builds_alloc {B : Type} (l : loc) (n : Nodes) (k : loc -> M B) :
  is_string (baseUri n) = true ->
  (forall l', Builds l' (k l')) ->
  Builds l (l' ← alloc n; k l').
Proof.
  intros Hn Hk st Hl.
  change ((l' ← alloc n; k l') st) with (k (length st) (st ++ [n])).
  destruct (Hk (length st) (st ++ [n]) (has_base_new st n Hn)) as (b & ext & E).
  exists b, (n :: ext). rewrite E, <- app_assoc. reflexivity.
Qed.

Lemma builds_alloc_write {B : Type} (l : loc) (n x : Nodes) (k : loc -> M B) :
  is_string (baseUri x) = true ->
  (forall l', Builds l' (k l')) ->
  Builds l (l' ← alloc n; write l' x;; k l').
Proof.
  intros Hx Hk st Hl. rewrite alloc_write_run.
  destruct (Hk (length st) (st ++ [x]) (has_base_new st x Hx)) as (b & ext & E).
  exists b, (x :: ext). rewrite E, <- app_assoc. reflexivity.
Qed.

Create HintDb builds.

#[local] Hint Resolve builds_ret : builds.

(** Splits a sequence of steps into its steps; the base of what is read is
    kept among the hypotheses. *)
Ltac builds :=
  repeat first
    [ lazymatch goal with
      | |- Builds _ (mbind _ (read _)) => apply builds_read; intros ? ?
      | |- Builds _ (mbind _ (alloc _)) =>
          first [ apply builds_alloc_write; [simpl; assumption | intros ?]
                | apply builds_alloc; [simpl; assumption | intros ?] ]
      | |- Builds _ (mbind _ _) => apply builds_bind; [|intros ?]
      | |- Builds _ (let _ := _ in _) => cbv zeta
      end
    | solve [auto with builds] ].

Lemma builds_httpRequest (nodes : loc) (m : Method) :
  Builds nodes (httpRequest nodes m).
Proof.
  unfold httpRequest. apply builds_read. intros n Hn. rewrite Hn. builds.
Qed.

#[local] Hint Resolve builds_httpRequest : builds.

Lemma builds_attachVerbs (methods : Methods) :
  forall nodes context, Builds nodes (attachVerbs nodes context methods).
Proof.
  induction methods as [|[verb m] rest IH]; intros nodes context; simpl; builds.
Qed.

#[local] Hint Resolve builds_attachVerbs : builds.

Lemma builds_attachQuery (self : loc -> Value -> Methods -> M Value)
    (nodes : loc) (context : Value) (methods : Methods) :
  (forall l c m, Builds l (self l c m)) ->
  Builds nodes (attachQuery self nodes context methods).
Proof.
  intros Hself. unfold attachQuery. builds.
  match goal with |- context [query ?n] => destruct (query n) end; builds.
Qed.

Lemma builds_attachHeaders (self : loc -> Value -> Methods -> M Value)
    (nodes : loc) (context : Value) (methods : Methods) :
  (forall l c m, Builds l (self l c m)) ->
  Builds nodes (attachHeaders self nodes context methods).
Proof.
  intros Hself. unfold attachHeaders. builds.
  match goal with |- context [headers ?n] => destruct (headers n) end; builds.
Qed.

Lemma builds_attachMethods_fuel (fuel : nat) :
  forall nodes context methods,
    Builds nodes (attachMethods_fuel fuel nodes context methods).
Proof.
  induction fuel as [|fuel IH]; intros nodes context methods; simpl.
  - builds.
  - builds.
    + apply builds_attachQuery, IH.
    + apply builds_attachHeaders, IH.
Qed.

Lemma builds_attachMethods (nodes : loc) (context : Value) (methods : Methods) :
  Builds nodes (attachMethods nodes context methods).
Proof. apply builds_attachMethods_fuel. Qed.

#[local] Hint Resolve builds_attachMethods : builds.

(** Induction on a resource, with the property for the resources below it. *)
Lemma Resource_induction (P : Resource -> Prop) :
  (forall params methods below,
     Forall (fun entry => P (snd entry)) below ->
     P (mkResource params methods below)) ->
  forall resource, P resource.
Proof.
  intros step. fix IH 1. intros [params ms below]. apply step.
  induction below as [|[route r] rest IHrest]; constructor.
  - apply IH.
  - exact IHrest.
Qed.

(** The callback of [attachResources], with the loop over the resources
    below written as [attachResources]. *)
Lemma attachResource_unfold (nodes : loc) (context : Value) (route : string)
    (params : option Params) (ms : Methods) (below : list (string * Resource)) :
  attachResource nodes context route (mkResource params ms below) =
    (n ← read nodes;
     routeNodes ← alloc n;
     write routeNodes (set_segments (segments n ++ [route]) n);;
     match keys <$> params with
     | Some ((_ :: _) as templateTags) =>
         if Regex.test route_re route then
           let routeName := routeNameOf route templateTags in
           if reserved routeName then mret context
           else
             let accessor :=
               extend (Accessor (length templateTags) route
                         (mkResource params ms below) routeNodes)
                 (member routeName context) in
             returnPropContext ← attachMethods routeNodes (Object []) ms;
             returnPropContext ← attachResources routeNodes returnPropContext below;
             mret (set_member routeName
                     (set_member RETURN_PROPERTY returnPropContext accessor) context)
         else mret context
     | _ =>
         newContext ← attachMethods routeNodes
                        (default (Object []) (member route context)) ms;
         newContext ← attachResources routeNodes newContext below;
         mret (set_member route newContext context)
     end).
Proof. reflexivity. Qed.

Lemma extends_attachResources_from (below : list (string * Resource)) :
  Forall (fun entry => forall nodes context route,
            Extends (attachResource nodes context route (snd entry))) below ->
  forall nodes context, Extends (attachResources nodes context below).
Proof.
  induction 1 as [|[route r] rest Hr _ IH]; intros nodes context; simpl; extends.
Qed.

(** Attaching a resource only adds arrays. *)
Lemma extends_attachResource (resource : Resource) :
  forall nodes context route,
    Extends (attachResource nodes context route resource).
Proof.
  induction resource as [params ms below IH] using Resource_induction.
  intros nodes context route. rewrite attachResource_unfold.
  pose proof (extends_attachResources_from below IH) as Hbelow.
  extends.
  destruct (keys <$> params) as [[|tag tags]|]; [extends | | extends].
  destruct (Regex.test route_re route); [|extends].
  cbv zeta. destruct (reserved _); extends.
Qed.

Lemma extends_attachResources (resources : list (string * Resource)) :
  forall nodes context, Extends (attachResources nodes context resources).
Proof.
  apply extends_attachResources_from, Forall_forall.
  intros entry _ nodes context route. apply extends_attachResource.
Qed.

Lemma builds_attachResources_from (below : list (string * Resource)) :
  Forall (fun entry => forall nodes context route,
            Builds nodes (attachResource nodes context route (snd entry))) below ->
  forall nodes context, Builds nodes (attachResources nodes context below).
Proof.
  induction 1 as [|[route r] rest Hr _ IH]; intros nodes context; simpl; builds.
Qed.

(** Attaching a resource on an array with a text for base address returns
    a context and only adds arrays. *)
Lemma builds_attachResource (resource : Resource) :
  forall nodes context route,
    Builds nodes (attachResource nodes context route resource).
Proof.
  induction resource as [params ms below IH] using Resource_induction.
  intros nodes context route. rewrite attachResource_unfold.
  pose proof (builds_attachResources_from below IH) as Hbelow.
  builds.
  destruct (keys <$> params) as [[|tag tags]|]; [builds | | builds].
  destruct (Regex.test route_re route); [|builds].
  cbv zeta. destruct (reserved _); builds.
Qed.

Lemma builds_attachResources (resources : list (string * Resource)) :
  forall nodes context, Builds nodes (attachResources nodes context resources).
Proof.
  apply builds_attachResources_from, Forall_forall.
  intros entry _ nodes context route. apply builds_attachResource.
Qed.

(* ===================================================================== *)
(** * Dynamic routes                                                      *)
(* ===================================================================== *)

Lemma lookup_set_prop {A : Type} (k : string) (v : A) (props : list (string * A)) :
  lookup_prop k (set_prop k v props) = Some v.
Proof.
  induction props as [|[k' v'] rest IH]; simpl.
  - rewrite String.eqb_refl. reflexivity.
  - destruct (String.eqb k k') eqn:E; simpl; rewrite ?String.eqb_refl, ?E; auto.
Qed.

Lemma member_set_member (name : string) (v context : Value) :
  member name (set_member name v context) = Some v.
Proof. destruct context; apply lookup_set_prop. Qed.

Lemma insert_new (st : Store) (n x : Nodes) :
  <[length st := x]> (st ++ [n]) = st ++ [x].
Proof. rewrite insert_app_r_alt, Nat.sub_diag by lia. reflexivity. Qed.

(** The array of a route has the base of the array above. *)
Lemma has_base_pushed (st : Store) (nodes : loc) (route : string) :
  has_base st nodes ->
  has_base (st ++ [set_segments (segments (at_loc st nodes) ++ [route])
                     (at_loc st nodes)]) (length st).
Proof. intros H. apply has_base_new. exact H. Qed.

(** What the callback of [attachResources] does with a resource that
    declares parameters: when the route passes the pattern and its name is
    not reserved, the context gets the accessor under that name; otherwise
    the context is returned as it was. *)
Lemma attachResource_dynamic_run (nodes : loc) (context : Value) (route : string)
    (resource : Resource) (st : Store) (tags : list string) :
  keys <$> uriParameters resource = Some tags -> tags <> [] ->
  has_base st nodes ->
  let name := routeNameOf route tags in
  if Regex.test route_re route && negb (reserved name) then
    exists returned st',
      attachResource nodes context route resource st =
        (Ok (set_member name
               (set_member RETURN_PROPERTY returned
                  (extend (Accessor (length tags) route resource (length st))
                     (member name context)))
               context), st')
  else
    exists st', attachResource nodes context route resource st = (Ok context, st').
Proof.
  intros Htags Hne Hbase name. subst name.
  destruct resource as [params ms below]. simpl in Htags.
  rewrite attachResource_unfold, Htags.
  destruct tags as [|tag tags]; [contradiction|].
  rewrite run_bind. unfold read at 1. rewrite run_bind. unfold alloc at 1.
  rewrite run_bind. unfold write at 1. rewrite insert_new.
  destruct (Regex.test route_re route); simpl andb; [|eexists; reflexivity].
  cbv zeta. destruct (reserved _); simpl negb; cbv iota; [eexists; reflexivity|].
  rewrite run_bind.
  destruct (builds_attachMethods (length st) (Object []) ms _
              (has_base_pushed st nodes route Hbase)) as (r1 & ext1 & E1).
  rewrite E1, run_bind.
  destruct (builds_attachResources below (length st) r1 _
              (has_base_app _ ext1 _ (has_base_pushed st nodes route Hbase)))
    as (r2 & ext2 & E2).
  rewrite E2. eexists r2, _. reflexivity.
Qed.




(** C2 fails as stated: the tags are the names the resource declares in
    [uriParameters], not the names found in the route.  The route [{id}] of a
    resource that declares [id] and [version] gets an accessor that wants
    two arguments, and one argument, as many as the route has names, is
    refused. *)
Lemma declared_tags_are_not_route_names :
  names_in_route "{id}" = ["id"] /\
  keys <$> uriParameters id_version_resource = Some ["id"; "version"] /\
  exists context' st' props,
    attachResource 0 (Object []) "{id}" id_version_resource start
      = (Ok context', st') /\
    member "" context' =
      Some (Function (Accessor 2 "{id}" id_version_resource 1) props) /\
    invoke (Function (Accessor 2 "{id}" id_version_resource 1) props)
      [VStr "7"] st' = (Throw InsufficientArguments, st').
Proof.
  split; [reflexivity|]. split; [reflexivity|].
  eexists _, _, _.
  split; [vm_compute; reflexivity|].
  split; vm_compute; reflexivity.
Qed.

(** C2, amended: for every dynamic accessor, the tags are the names the
    resource declares in [uriParameters], and calling the accessor with fewer
    arguments than there are tags fails with InsufficientArguments before
    anything else is done: the store, and with it every array of path nodes,
    is as it was, and the template engine, whose outcome the result does not
    depend on, is not run.  The array the resource is attached on has a text
    for base address, as [url.resolve] asks of the base of the client. *)
Theorem accessor_insufficient_arguments (nodes : loc) (context : Value)
    (route : string) (resource : Resource) (st : Store) (tags : list string)
    (args : list JSVal)
    (Htags : keys <$> uriParameters resource = Some tags)
    (Hsome : tags <> [])
    (Hbase : has_base st nodes)
    (Hfew : length args < length tags) :
  exists context' st',
    attachResource nodes context route resource st = (Ok context', st') /\
    (context' = context \/
     exists props,
       member (routeNameOf route tags) context' =
         Some (Function
                 (Accessor (length tags) route resource (length st)) props)) /\
    (forall props st2,
       invoke (Function (Accessor (length tags) route resource (length st)) props)
         args st2 = (Throw InsufficientArguments, st2)).
Proof.
  pose proof (attachResource_dynamic_run nodes context route resource st tags
                Htags Hsome Hbase) as H. cbv zeta in H.
  assert (Hcall : forall props st2,
            invoke (Function (Accessor (length tags) route resource (length st)) props)
              args st2 = (Throw InsufficientArguments, st2)).
  { intros props st2. simpl. unfold call_accessor.
    destruct (Nat.ltb_spec (length args) (length tags)); [reflexivity | lia]. }
  destruct (Regex.test route_re route && negb (reserved (routeNameOf route tags))).
  - destruct H as (returned & st' & ->). eexists _, st'.
    split; [reflexivity|]. split; [|exact Hcall].
    right. eexists. apply member_set_member.
  - destruct H as (st' & ->). exists context, st'. auto.
Qed.

Lemma accessor_insufficient_arguments_witness :
  exists context' st',
    attachResource 0 (Object []) "{id}" id_resource start = (Ok context', st') /\
    (context' = Object [] \/
     exists props,
       member (routeNameOf "{id}" ["id"]) context' =
         Some (Function (Accessor 1 "{id}" id_resource 1) props)) /\
    (forall props st2,
       invoke (Function (Accessor 1 "{id}" id_resource 1) props) [] st2
         = (Throw InsufficientArguments, st2)).
Proof.
  apply (accessor_insufficient_arguments 0 (Object []) "{id}" id_resource
           start ["id"] []);
    [reflexivity | discriminate | reflexivity | simpl; lia].
Defined.

(* ===================================================================== *)
(** * The depth of [attachMethods]                                        *)
(* ===================================================================== *)

(** [attachQuery] calls [attachMethods] on an array that misses fewer
    properties only, so two functions that agree on such arrays can stand
    for it. *)
Lemma attachQuery_ext (self1 self2 : loc -> Value -> Methods -> M Value)
    (nodes : loc) (context : Value) (methods : Methods) (st : Store) :
  (forall l c st', l < length st' ->
     missing (at_loc st' l) < missing (at_loc st nodes) ->
     self1 l c methods st' = self2 l c methods st') ->
  attachQuery self1 nodes context methods st
  = attachQuery self2 nodes context methods st.
Proof.
  intros H. unfold attachQuery. rewrite !run_bind. unfold read.
  destruct (query (at_loc st nodes)) eqn:Q; [reflexivity|].
  rewrite !run_bind. unfold alloc. cbv zeta. rewrite !run_bind.
  rewrite H; [reflexivity | rewrite length_app; simpl; lia |].
  rewrite at_loc_new. unfold missing. simpl. rewrite Q. lia.
Qed.

Lemma attachHeaders_ext (self1 self2 : loc -> Value -> Methods -> M Value)
    (nodes : loc) (context : Value) (methods : Methods) (st : Store) :
  (forall l c st', l < length st' ->
     missing (at_loc st' l) < missing (at_loc st nodes) ->
     self1 l c methods st' = self2 l c methods st') ->
  attachHeaders self1 nodes context methods st
  = attachHeaders self2 nodes context methods st.
Proof.
  intros H. unfold attachHeaders. rewrite !run_bind. unfold read.
  destruct (headers (at_loc st nodes)) eqn:Q; [reflexivity|].
  rewrite !run_bind. unfold alloc. cbv zeta. rewrite !run_bind.
  rewrite H; [reflexivity | rewrite length_app; simpl; lia |].
  rewrite at_loc_new. unfold missing. simpl. rewrite Q.
  destruct (query (at_loc st nodes)); lia.
Qed.

(** More fuel than the array misses properties is as good as any more. *)
Lemma attachMethods_fuel_stable (k : nat) :
  forall f1 f2 nodes context methods st,
    nodes < length st -> missing (at_loc st nodes) <= k ->
    k < f1 -> k < f2 ->
    attachMethods_fuel f1 nodes context methods st
    = attachMethods_fuel f2 nodes context methods st.
Proof.
  induction k as [k IH] using lt_wf_ind.
  intros [|f1] [|f2] nodes context methods st Hl Hk H1 H2; try lia.
  simpl. rewrite !run_bind.
  assert (Hself : forall st', at_loc st' nodes = at_loc st nodes ->
            forall l c st'', l < length st'' ->
              missing (at_loc st'' l) < missing (at_loc st' nodes) ->
              attachMethods_fuel f1 l c methods st''
              = attachMethods_fuel f2 l c methods st'').
  { intros st' E l c st'' Hl' Hm. rewrite E in Hm.
    apply (IH (missing (at_loc st'' l))); lia. }
  rewrite (attachQuery_ext _ (attachMethods_fuel f2) _ _ _ _ (Hself st eq_refl)).
  destruct (extends_attachQuery (attachMethods_fuel f2) nodes context methods
              (extends_attachMethods_fuel f2) st) as ([c1|e] & ext & ->);
    [|reflexivity].
  rewrite !run_bind.
  rewrite (attachHeaders_ext _ (attachMethods_fuel f2) _ _ _ _
             (Hself (st ++ ext) (at_loc_app st ext nodes Hl))).
  reflexivity.
Qed.

(** X29: the recursion of [attachMethods] through its helpers ends.  The
    depth of three that [attachMethods] runs with is enough: no array misses
    more than two properties, and more fuel changes nothing. *)
Lemma attachMethods_fuel_enough (fuel : nat) (nodes : loc) (context : Value)
    (methods : Methods) (st : Store) :
  nodes < length st -> 3 <= fuel ->
  attachMethods_fuel fuel nodes context methods st
  = attachMethods nodes context methods st.
Proof.
  intros Hl Hf. apply (attachMethods_fuel_stable 2); try lia.
  unfold missing.
  destruct (query (at_loc st nodes)), (headers (at_loc st nodes)); simpl; lia.
Qed.

(* ===================================================================== *)
(** * What a call leaves as it was                                        *)
(* ===================================================================== *)

(** A write to one array followed by a construction: the store is the old
    one with that array replaced, and new arrays after it. *)
Lemma write_then_build {A : Type} (l : loc) (x : Nodes) (m : M A) (st : Store) :
  Extends m -> exists r ext, (write l x;; m) st = (r, <[l := x]> st ++ ext).
Proof.
  intros Hm. rewrite run_bind. unfold write.
  destruct (Hm (<[l := x]> st)) as (r & ext & ->). eauto.
Qed.

Lemma at_loc_written (st ext : Store) (l l' : loc) (x : Nodes) :
  l' < length st ->
  at_loc (<[l := x]> st ++ ext) l' = if decide (l = l') then x else at_loc st l'.
Proof.
  intros H. unfold at_loc.
  rewrite lookup_app_l by (rewrite length_insert; exact H).
  destruct (decide (l = l')) as [->|Hne].
  - rewrite list_lookup_insert_eq by exact H. reflexivity.
  - rewrite list_lookup_insert_ne by exact Hne. reflexivity.
Qed.

(** What a request function hands to the middleware depends on the store
    through the headers of its array only. *)
Lemma send_reads_headers (fullUrl : Url) (l : loc) (m : Method)
    (args : list JSVal) (st st' : Store) :
  headers (at_loc st' l) = headers (at_loc st l) ->
  fst (send fullUrl l m args st') = fst (send fullUrl l m args st).
Proof. intros H. unfold send. rewrite !run_bind. unfold read. simpl. rewrite H. reflexivity. Qed.

(** A call of a query helper changes the [query] of its array and adds
    arrays: the headers of every array are as they were. *)
Lemma call_query_headers (routeNodes : loc) (methods : Methods)
    (args : list JSVal) (st : Store) (l : loc) :
  l < length st ->
  headers (at_loc (snd (call_query routeNodes methods args st)) l)
  = headers (at_loc st l).
Proof.
  intros Hl. unfold call_query. cbv zeta. rewrite run_bind. unfold read at 1.
  match goal with |- context [(write ?a ?x;; ?m) st] =>
    destruct (write_then_build a x m st) as (r & ext & ->) end.
  { apply extends_fmap, extends_attachMethods. }
  simpl. rewrite at_loc_written by exact Hl.
  destruct (decide (routeNodes = l)) as [->|]; reflexivity.
Qed.

(** A call of an accessor changes the last segment of its array and adds
    arrays, or throws and changes nothing. *)
Lemma call_accessor_headers (templateCount : nat) (route : string)
    (resource : Resource) (routeNodes : loc) (args : list JSVal)
    (st : Store) (l : loc) :
  l < length st ->
  headers (at_loc
             (snd (call_accessor templateCount route resource routeNodes args st)) l)
  = headers (at_loc st l).
Proof.
  intros Hl. unfold call_accessor.
  destruct (length args <? templateCount); [reflexivity|].
  rewrite run_bind. unfold lift at 1.
  destruct (template route (uriParameters resource) (CtxArray args));
    [|reflexivity].
  rewrite run_bind. unfold read at 1.
  match goal with |- context [(write ?a ?x;; ?m) st] =>
    destruct (write_then_build a x m st) as (r & ext & ->) end.
  { apply extends_bind; [apply extends_attachMethods|].
    intros c. apply extends_fmap, extends_attachResources. }
  simpl. rewrite at_loc_written by exact Hl.
  destruct (decide (routeNodes = l)) as [->|]; reflexivity.
Qed.

(** A call of a headers helper changes the [headers] of its array alone. *)
Lemma call_headers_headers (routeNodes : loc) (methods : Methods)
    (args : list JSVal) (st : Store) (l : loc) :
  l < length st -> l <> routeNodes ->
  headers (at_loc (snd (call_headers routeNodes methods args st)) l)
  = headers (at_loc st l).
Proof.
  intros Hl Hne. unfold call_headers. cbv zeta.
  destruct (negb _); [reflexivity|].
  rewrite run_bind. unfold read at 1.
  match goal with |- context [(write ?a ?x;; ?m) st] =>
    destruct (write_then_build a x m st) as (r & ext & ->) end.
  { apply extends_fmap, extends_attachMethods. }
  simpl. rewrite at_loc_written by exact Hl.
  destruct (decide (routeNodes = l)) as [->|]; [contradiction | reflexivity].
Qed.

(** The part of C3 that holds.  A request function made before a call of a
    query helper or of an accessor hands the same request to the middleware
    after the call as before it; so does, after a call of a headers helper,
    every request function on another array than the helper's. *)
Lemma calls_keep_requests (f : Value) (args : list JSVal) (st : Store)
    (fullUrl : Url) (l : loc) (m : Method) (data : list JSVal) :
  l < length st ->
  (forall routeNodes methods props,
     f = Function (HeadersHelper routeNodes methods) props -> l <> routeNodes) ->
  fst (send fullUrl l m data (snd (invoke f args st)))
  = fst (send fullUrl l m data st).
Proof.
  intros Hl Hother. apply send_reads_headers.
  destruct f as [props|[url l' m'|rn ms|rn ms|count route resource rn] props];
    simpl; try reflexivity.
  - apply call_query_headers. exact Hl.
  - apply call_headers_headers; [exact Hl | eauto].
  - apply call_accessor_headers. exact Hl.
Qed.

(* ===================================================================== *)
(** * Branches and the arrays they share                                  *)
(* ===================================================================== *)

(** The two requests of the description with [users] and [{id}] go to
    [users] and to [users/42] under the base address. *)
Lemma users_then_id_addresses :
  fst (users_then_id start) =
    Ok ({| url_base := VStr "http://api.example.com"; url_path := "users";
           url_query := None |},
        {| url_base := VStr "http://api.example.com"; url_path := "users/42";
           url_query := None |}).
Proof. vm_compute. reflexivity. Qed.

(** The address of a request is resolved when its function is made, so a
    later [.query(...)] on the same node does not change what a branch made
    before sends. *)
Lemma query_twice_same_address :
  exists url, fst (query_twice start) = Ok (url, url) /\
              url_query url = Some (QValue (VStr "a=1")).
Proof. eexists. split; vm_compute; reflexivity. Qed.

(** C3 does not hold of [headers]: every call of the helper of a node
    writes the headers into the one array the helper captured, and the
    requests of a branch read them from that array when they are sent.  The
    branch made by [.headers({X: '1'})] sends [X] at first, and [Y] once
    [.headers({Y: '2'})] was called on the same node. *)
Theorem headers_shared_between_calls :
  fst (headers_twice start) =
    Ok (VObj [("X", VStr "1")], VObj [("Y", VStr "2")]).
Proof. vm_compute. reflexivity. Qed.

(* ===================================================================== *)
(** * More on the validator                                               *)
(* ===================================================================== *)

Lemma strict_eq_text_l (s : string) (v : JSVal) :
  strict_eq (VStr s) v = true <-> v = VStr s.
Proof.
  destruct v; simpl; split; intros H; try congruence.
  - apply String.eqb_eq in H. congruence.
  - injection H as ->. apply String.eqb_refl.
Qed.

Lemma outside_enum_spec (s : string) (items : list JSVal) :
  outside_enum (VArr items) (VStr s) = false <-> In (VStr s) items.
Proof.
  unfold outside_enum. rewrite negb_false_iff, existsb_exists. split.
  - intros (x & Hx & E). apply strict_eq_text_l in E. subst. exact Hx.
  - intros H. exists (VStr s). split; [exact H | apply strict_eq_text_l; reflexivity].
Qed.

Lemma js_lt_integers (a b : Z) : js_lt (int a) (int b) = (a <? b)%Z.
Proof. rewrite <- below_integers. reflexivity. Qed.

Lemma js_gt_integers (a b : Z) : js_gt (int a) (int b) = (b <? a)%Z.
Proof.
  change (js_gt (int a) (int b)) with (above (int a) (int b)).
  rewrite above_integers. apply Z.gtb_ltb.
Qed.

(** What [validateParam] does with a present value for a number. *)
Lemma number_branch (value : JSVal) (param : Param) :
  type param = VStr "number" -> is_nullish value = false ->
  validateParam value param =
    if negb (is_number value) then Throw TypeMismatch
    else if below value (minimum param) then Throw RangeViolation
    else if above value (maximum param) then Throw RangeViolation
    else Ok true.
Proof.
  intros Ht Hv. unfold validateParam.
  rewrite (validateParam_present _ _ Hv), Hv, Ht. simpl.
  destruct (is_number value); simpl; [|reflexivity].
  destruct (below value (minimum param)); simpl; [reflexivity|].
  destruct (above value (maximum param)); reflexivity.
Qed.

(** X1: for a parameter of type string with an [enum] array, a text that is
    not in the array fails with EnumViolation, whatever the length and pattern
    facets say; a text that is in the array validates as it does against the
    same parameter without the [enum]. *)
Theorem validateParam_enum (s : string) (items : list JSVal) (param : Param)
    (Htype : type param = VStr "string")
    (Henum : enum param = VArr items) :
  (~ In (VStr s) items -> validateParam (VStr s) param = Throw EnumViolation) /\
  (In (VStr s) items ->
   validateParam (VStr s) param
   = validateParam (VStr s) (with_enum VUndefined param)).
Proof.
  rewrite (string_branch s param Htype), (string_branch s (with_enum VUndefined param) Htype).
  rewrite Henum. simpl enum. split; intros H.
  - destruct (outside_enum (VArr items) (VStr s)) eqn:E; [reflexivity|].
    apply outside_enum_spec in E. contradiction.
  - apply outside_enum_spec in H. rewrite H. reflexivity.
Qed.

Lemma validateParam_enum_witness :
  validateParam (VStr "c")
    (with_enum (VArr [VStr "a"; VStr "b"]) required_string)
  = Throw EnumViolation.
Proof.
  apply (validateParam_enum "c" [VStr "a"; VStr "b"]
           (with_enum (VArr [VStr "a"; VStr "b"]) required_string));
    [reflexivity | reflexivity |].
  simpl. intros [H|[H|[]]]; discriminate.
Defined.

Lemma utf16_length_ascii (s : string) :
  is_ascii_text s = true -> utf16_length s = String.length s.
Proof.
  unfold is_ascii_text. induction s as [|c rest IH]; [reflexivity|].
  cbn [all_chars utf16_length String.length]. intros H.
  apply andb_prop in H as [Hc Hrest]. rewrite (IH Hrest).
  unfold utf16_units. rewrite Hc. reflexivity.
Qed.

(** X2: for a parameter of type string with integer [minLength] and
    [maxLength], no [enum] array and no pattern, a text validates exactly
    when its length lies between the two, and fails with LengthViolation
    otherwise.  The length is the number of UTF-16 code units of the text,
    which for an ASCII text is the number of its characters. *)
Theorem validateParam_length (s : string) (lo hi : Z) (param : Param)
    (Htype : type param = VStr "string")
    (Henum : is_array (enum param) = false)
    (Hpattern : is_regexp (pattern param) = false)
    (Hmin : minLength param = int lo)
    (Hmax : maxLength param = int hi) :
  validateParam (VStr s) param =
    (if ((Z.of_nat (utf16_length s) <? lo)
         || (hi <? Z.of_nat (utf16_length s)))%Z
     then Throw LengthViolation else Ok true) /\
  (is_ascii_text s = true -> utf16_length s = String.length s).
Proof.
  split; [|apply utf16_length_ascii].
  rewrite (string_branch s param Htype), Hmin, Hmax.
  assert (E1 : outside_enum (enum param) (VStr s) = false)
    by (destruct (enum param); try reflexivity; discriminate).
  assert (E2 : fails_pattern s (pattern param) = false)
    by (destruct (pattern param); try reflexivity; discriminate).
  rewrite E1, E2. unfold shorter_than, longer_than.
  change (VNum (Num.of_nat (utf16_length s)))
    with (int (Z.of_nat (utf16_length s))).
  rewrite js_lt_integers, js_gt_integers. simpl.
  destruct (Z.of_nat (utf16_length s) <? lo)%Z; simpl; [reflexivity|].
  destruct (hi <? Z.of_nat (utf16_length s))%Z; reflexivity.
Qed.

Lemma validateParam_length_witness :
  validateParam (VStr "abcd")
    (with_lengths (int 1) (int 3) required_string) = Throw LengthViolation /\
  validateParam (VStr e_acute)
    (with_lengths (int 1) (int 1) required_string) = Ok true /\
  validateParam (VStr e_acute)
    (with_lengths (int 2) (int 2) required_string) = Throw LengthViolation.
Proof.
  split; [|split].
  - apply (validateParam_length "abcd" 1 3
             (with_lengths (int 1) (int 3) required_string)); reflexivity.
  - apply (validateParam_length e_acute 1 1
             (with_lengths (int 1) (int 1) required_string)); reflexivity.
  - apply (validateParam_length e_acute 2 2
             (with_lengths (int 2) (int 2) required_string)); reflexivity.
Defined.

(** X3: the facets [minLength], [maxLength], [minimum] and [maximum]
    constrain only when they are numbers: with bounds that are not (the text
    '10', say, or NaN) every value validates as it does without them. *)
Theorem validateParam_bounds_need_numbers (value : JSVal) (param : Param)
    (lo hi : JSVal)
    (Hlo : is_number lo = false) (Hhi : is_number hi = false) :
  validateParam value (with_lengths lo hi param)
  = validateParam value (with_lengths VUndefined VUndefined param) /\
  validateParam value (with_range lo hi param)
  = validateParam value (with_range VUndefined VUndefined param).
Proof.
  split; unfold validateParam, shorter_than, longer_than, below, above; simpl;
    rewrite Hlo, Hhi; reflexivity.
Qed.

Lemma validateParam_bounds_need_numbers_witness :
  validateParam (int 150)
    (with_range (VStr "0") (VStr "100") (integer_at_most 1000)) = Ok true.
Proof.
  rewrite (proj2 (validateParam_bounds_need_numbers (int 150)
                    (integer_at_most 1000) (VStr "0") (VStr "100")
                    eq_refl eq_refl)).
  reflexivity.
Defined.

(** X4: a value that passes as an integer passes as a number: unless the
    value fails the integer test with TypeMismatch, it validates against the
    same facets with type number as it does with type integer. *)
Theorem integer_passes_as_number (value : JSVal) (param : Param)
    (Hpass : validateParam value (with_type (VStr "integer") param)
             <> Throw TypeMismatch) :
  validateParam value (with_type (VStr "number") param)
  = validateParam value (with_type (VStr "integer") param).
Proof.
  destruct (is_nullish value) eqn:Hv.
  - rewrite !(validateParam_nullish _ _ Hv). reflexivity.
  - rewrite (integer_branch value (with_type (VStr "integer") param) eq_refl Hv) in *.
    rewrite (number_branch value (with_type (VStr "number") param) eq_refl Hv).
    destruct (strict_eq value (VNum (parseInt value))) eqn:E; simpl in *;
      [|congruence].
    assert (N : is_number value = true).
    { destruct value as [| | |n| | | | |]; simpl in E; try discriminate.
      unfold Num.eqb in E. destruct n as [|[]|]; simpl in *; try discriminate;
        reflexivity. }
    rewrite N. reflexivity.
Qed.

Lemma integer_passes_as_number_witness :
  validateParam (int 150) (with_type (VStr "number") (integer_at_most 100))
  = Throw RangeViolation.
Proof.
  rewrite (integer_passes_as_number (int 150) (integer_at_most 100)).
  - reflexivity.
  - discriminate.
Defined.

(** The comparisons of a decimal with an integer bound are those of [Z]
    once both are scaled alike. *)
Lemma below_decimal (m : Z) (k : nat) (b : Z) :
  below (VNum (Num.Dec m k)) (int b) = (m <? b * 10 ^ Z.of_nat k)%Z.
Proof.
  unfold below, int, Num.of_Z, js_lt, Num.ltb, Num.compare. simpl is_number.
  cbn [andb]. change (10 ^ Z.of_nat 0)%Z with 1%Z. rewrite Z.mul_1_r.
  unfold Z.ltb. destruct (m ?= b * 10 ^ Z.of_nat k)%Z; reflexivity.
Qed.

Lemma above_decimal (m : Z) (k : nat) (b : Z) :
  above (VNum (Num.Dec m k)) (int b) = (b * 10 ^ Z.of_nat k <? m)%Z.
Proof.
  unfold above, int, Num.of_Z, js_gt, Num.gtb, Num.compare. simpl is_number.
  cbn [andb]. change (10 ^ Z.of_nat 0)%Z with 1%Z. rewrite Z.mul_1_r.
  rewrite Z.ltb_antisym, Z.leb_compare.
  destruct (m ?= b * 10 ^ Z.of_nat k)%Z; reflexivity.
Qed.

Lemma below_unset (value : JSVal) : below value VUndefined = false.
Proof. reflexivity. Qed.

Lemma above_unset (value : JSVal) : above value VUndefined = false.
Proof. reflexivity. Qed.

(** X5: for a parameter of type number, a present value fails with
    TypeMismatch exactly when it is not a number or is NaN: a fraction
    passes the type test, a text of digits does not.  A decimal
    [m / 10^k] is then checked against the bounds that are set: it fails
    with RangeViolation exactly when it is less than the minimum or greater
    than the maximum, and validates otherwise. *)
Theorem validateParam_number (value : JSVal) (m : Z) (k : nat)
    (lo hi : option Z) (param : Param)
    (Htype : type param = VStr "number")
    (Hmin : minimum param = bound lo)
    (Hmax : maximum param = bound hi) :
  (is_nullish value = false ->
   (validateParam value param = Throw TypeMismatch <->
    forall n, value = VNum n -> n = Num.NaN)) /\
  validateParam (VNum (Num.Dec m k)) param =
    if (from_option (fun b => m <? b * 10 ^ Z.of_nat k) false lo
        || from_option (fun b => b * 10 ^ Z.of_nat k <? m) false hi)%Z
    then Throw RangeViolation else Ok true.
Proof.
  split.
  - intros Hpresent. rewrite (number_branch value param Htype Hpresent).
    destruct value as [| | |[| |]| | | | |]; simpl;
      try (split; [intros _ ? [=]; congruence | reflexivity]).
    + split; [|intros H; discriminate (H _ eq_refl)].
      destruct (below _ _); [|destruct (above _ _)]; discriminate.
    + split; [|intros H; discriminate (H _ eq_refl)].
      destruct (below _ _); [|destruct (above _ _)]; discriminate.
  - rewrite (number_branch (VNum (Num.Dec m k)) param Htype eq_refl), Hmin, Hmax.
    simpl negb. cbv iota.
    destruct lo as [lo|], hi as [hi|]; simpl bound; simpl from_option;
      rewrite ?below_decimal, ?above_decimal, ?below_unset, ?above_unset;
      repeat match goal with |- context [(?a <? ?b)%Z] =>
               destruct (a <? b)%Z end; reflexivity.
Qed.

Lemma validateParam_number_witness :
  (validateParam (VStr "5") (with_range (int 2) (int 3)
                               (with_type (VStr "number") no_facets))
     = Throw TypeMismatch <->
   forall n, VStr "5" = VNum n -> n = Num.NaN) /\
  validateParam (VNum (Num.Dec 15 1))
    (with_range (int 2) (int 3) (with_type (VStr "number") no_facets))
    = Throw RangeViolation /\
  validateParam (VNum (Num.Dec 25 1))
    (with_range (int 2) (int 3) (with_type (VStr "number") no_facets))
    = Ok true /\
  validateParam (VNum (Num.Dec 35 1))
    (with_range (int 2) (int 3) (with_type (VStr "number") no_facets))
    = Throw RangeViolation.
Proof.
  split; [|split; [|split]].
  - apply (validateParam_number (VStr "5") 0 0 (Some 2%Z) (Some 3%Z)
             (with_range (int 2) (int 3) (with_type (VStr "number") no_facets)));
      reflexivity.
  - apply (validateParam_number VNull 15 1 (Some 2%Z) (Some 3%Z)
             (with_range (int 2) (int 3) (with_type (VStr "number") no_facets)));
      reflexivity.
  - apply (validateParam_number VNull 25 1 (Some 2%Z) (Some 3%Z)
             (with_range (int 2) (int 3) (with_type (VStr "number") no_facets)));
      reflexivity.
  - apply (validateParam_number VNull 35 1 (Some 2%Z) (Some 3%Z)
             (with_range (int 2) (int 3) (with_type (VStr "number") no_facets)));
      reflexivity.
Defined.

(** X6: for a parameter of type date a present value validates when it is a
    date and fails with TypeMismatch otherwise, and likewise for type boolean
    and booleans; no other facet is looked at. *)
Theorem validateParam_date_boolean (value : JSVal) (param : Param)
    (Hpresent : is_nullish value = false) :
  (type param = VStr "date" ->
   validateParam value param =
     match value with VDate _ => Ok true | _ => Throw TypeMismatch end) /\
  (type param = VStr "boolean" ->
   validateParam value param =
     match value with VBool _ => Ok true | _ => Throw TypeMismatch end).
Proof.
  split; intros Ht; unfold validateParam;
    rewrite (validateParam_present _ _ Hpresent), Hpresent, Ht; simpl;
    destruct value; reflexivity.
Qed.

Lemma validateParam_date_boolean_witness :
  validateParam (VStr "2014-01-01") (with_type (VStr "date") no_facets)
    = Throw TypeMismatch /\
  validateParam (VBool false) (with_type (VStr "boolean") no_facets) = Ok true.
Proof.
  split.
  - exact (proj1 (validateParam_date_boolean (VStr "2014-01-01")
                    (with_type (VStr "date") no_facets) eq_refl) eq_refl).
  - exact (proj2 (validateParam_date_boolean (VBool false)
                    (with_type (VStr "boolean") no_facets) eq_refl) eq_refl).
Defined.

(** Every error of [validateParam] is one of its six. *)
Lemma validateParam_errors (value : JSVal) (param : Param) (e : Error) :
  validateParam value param = Throw e -> validation_error e = true.
Proof.
  destruct (is_nullish value) eqn:Hv.
  - rewrite (validateParam_nullish _ _ Hv).
    destruct (strict_eq _ _); intros H; inversion H; reflexivity.
  - unfold validateParam. rewrite (validateParam_present _ _ Hv), Hv. simpl.
    destruct (strict_eq (type param) (VStr "string")).
    { destruct value; simpl; try (intros H; inversion H; reflexivity).
      destruct (outside_enum _ _); simpl; try (intros H; inversion H; reflexivity).
      destruct (shorter_than _ _); simpl; try (intros H; inversion H; reflexivity).
      destruct (longer_than _ _); simpl; try (intros H; inversion H; reflexivity).
      destruct (fails_pattern _ _); simpl; intros H; inversion H; reflexivity. }
    destruct (strict_eq (type param) (VStr "integer")
              || strict_eq (type param) (VStr "number")).
    { destruct (strict_eq (type param) (VStr "number")).
      - destruct (is_number value); simpl; try (intros H; inversion H; reflexivity).
        destruct (below _ _); simpl; try (intros H; inversion H; reflexivity).
        destruct (above _ _); simpl; intros H; inversion H; reflexivity.
      - destruct (strict_eq value _); simpl; try (intros H; inversion H; reflexivity).
        destruct (below _ _); simpl; try (intros H; inversion H; reflexivity).
        destruct (above _ _); simpl; intros H; inversion H; reflexivity. }
    destruct (strict_eq (type param) (VStr "date")).
    { destruct value; simpl; intros H; inversion H; reflexivity. }
    destruct (strict_eq (type param) (VStr "boolean")).
    { destruct value; simpl; intros H; inversion H; reflexivity. }
    discriminate.
Qed.

(** X30: for a parameter of type integer, a present value that is no
    integer fails with TypeMismatch, and an integer below [10^21] in absolute
    value is checked against the bounds that are set: it fails with
    RangeViolation exactly when it is less than the minimum or greater than
    the maximum, and validates otherwise; 150 against a maximum of 100 fails
    with RangeViolation and 99 succeeds. *)
Theorem validateParam_integer_range (value : JSVal) (z : Z) (lo hi : option Z)
    (param : Param)
    (Htype : type param = VStr "integer")
    (Hmin : minimum param = bound lo)
    (Hmax : maximum param = bound hi)
    (Hsmall : (Z.abs z < 10 ^ 21)%Z) :
  (is_nullish value = false -> (forall z', ~ value_denotes value z') ->
   validateParam value param = Throw TypeMismatch) /\
  validateParam (int z) param =
    if (from_option (fun b => z <? b) false lo
        || from_option (fun b => b <? z) false hi)%Z
    then Throw RangeViolation else Ok true.
Proof.
  split.
  - intros Hpresent H. rewrite (integer_branch _ _ Htype Hpresent).
    destruct (strict_eq value (VNum (parseInt value))) eqn:E; [|reflexivity].
    apply parseInt_same_integer in E as [z' E]. destruct (H z' E).
  - rewrite (integer_branch (int z) _ Htype eq_refl),
      (parseInt_same_small z Hsmall), Hmin, Hmax.
    simpl negb. cbv iota.
    destruct lo as [lo|], hi as [hi|]; simpl bound; simpl from_option;
      rewrite ?below_integers, ?above_integers, ?below_unset, ?above_unset,
        ?Z.gtb_ltb;
      repeat match goal with |- context [(?a <? ?b)%Z] =>
               destruct (a <? b)%Z end; reflexivity.
Qed.

Lemma validateParam_integer_range_witness :
  validateParam (VNum (Num.Dec 15 1)) (integer_at_most 100) = Throw TypeMismatch /\
  validateParam (int 150) (integer_at_most 100) = Throw RangeViolation /\
  validateParam (int 99) (integer_at_most 100) = Ok true.
Proof.
  split; [|split].
  - apply (validateParam_integer_range (VNum (Num.Dec 15 1)) 0 None (Some 100%Z)
             (integer_at_most 100)); try reflexivity.
    intros z' H. simpl in H. lia.
  - apply (validateParam_integer_range VNull 150 None (Some 100%Z)
             (integer_at_most 100)); reflexivity.
  - apply (validateParam_integer_range VNull 99 None (Some 100%Z)
             (integer_at_most 100)); reflexivity.
Defined.

(* ===================================================================== *)
(** * More on the template engine                                         *)
(* ===================================================================== *)

Lemma prefix_cons (a b : ascii) (s t : string) :
  String.prefix (String a s) (String b t)
  = if ascii_dec a b then String.prefix s t else false.
Proof. reflexivity. Qed.

Lemma prefix_append (a b : string) : String.prefix a (a +:+ b) = true.
Proof.
  induction a as [|c a IH]; [destruct b; reflexivity|].
  change (String c a +:+ b) with (String c (a +:+ b)). rewrite prefix_cons.
  destruct (ascii_dec c c); [exact IH | contradiction].
Qed.

Lemma find_tag_in (alts : list string) (s name : string) :
  find_tag alts s = Some name -> In name alts.
Proof.
  induction alts as [|k rest IH]; simpl; [discriminate|].
  destruct (String.prefix (tag_text k) s).
  - intros H. injection H as ->. left. reflexivity.
  - intros H. right. exact (IH H).
Qed.

(** A tag starts with an opening brace. *)
Lemma find_tag_other_char (alts : list string) (c : ascii) (rest : string) :
  is_char "{" c = false -> find_tag alts (String c rest) = None.
Proof.
  intros H. induction alts as [|k more IH]; cbn [find_tag]; [reflexivity|].
  change (tag_text k) with (String "{" (k +:+ String "}" "")).
  rewrite prefix_cons.
  destruct (ascii_dec "{" c) as [<-|_]; [discriminate H | exact IH].
Qed.

Lemma no_open_brace_no_tag (alts : list string) (s : string) :
  no_open_brace s = true -> has_tag alts s = false.
Proof.
  induction s as [|c s IH]; simpl; [reflexivity|].
  intros H. apply andb_true_iff in H as [Hc Hs].
  apply negb_true_iff in Hc. rewrite (find_tag_other_char alts c s Hc).
  exact (IH Hs).
Qed.

(** The scan copies a text without opening brace. *)
Lemma replace_plain_prefix (alts : list string)
    (callback : nat -> string -> Result string) (index : nat)
    (pre rest : string) :
  no_open_brace pre = true ->
  replace alts callback 0 index (pre +:+ rest)
  = (out ← replace alts callback 0 index rest; Ok (pre +:+ out)).
Proof.
  induction pre as [|c pre IH]; simpl.
  - intros _. destruct (replace alts callback 0 index rest); reflexivity.
  - intros H. apply andb_true_iff in H as [Hc Hp].
    apply negb_true_iff in Hc.
    rewrite (find_tag_other_char alts c (pre +:+ rest) Hc), (IH Hp).
    destruct (replace alts callback 0 index rest); reflexivity.
Qed.

(** The scan passes over the characters of a match. *)
Lemma replace_skip (alts : list string)
    (callback : nat -> string -> Result string) (index : nat)
    (u rest : string) :
  replace alts callback (String.length u) index (u +:+ rest)
  = replace alts callback 0 index rest.
Proof.
  induction u as [|c u IH]; simpl; [|exact IH].
  destruct rest; reflexivity.
Qed.

Lemma length_append_char (s : string) (c : ascii) :
  String.length (s +:+ String c "") = S (String.length s).
Proof. induction s as [|x s IH]; simpl; [|rewrite IH]; reflexivity. Qed.

(** The scan of a text with one tag between two texts without opening
    brace. *)
Lemma replace_one_tag (callback : nat -> string -> Result string)
    (pre post name : string) :
  no_open_brace pre = true -> no_open_brace post = true ->
  replace [name] callback 0 0 (pre +:+ tag_text name +:+ post)
  = (new ← callback 0 name; Ok (pre +:+ new +:+ post)).
Proof.
  intros Hpre Hpost. rewrite (replace_plain_prefix _ _ _ _ _ Hpre).
  change (tag_text name +:+ post)
    with (String "{" ((name +:+ String "}" "") +:+ post)).
  assert (F : find_tag [name] (String "{" ((name +:+ String "}" "") +:+ post))
              = Some name).
  { change (String "{" ((name +:+ String "}" "") +:+ post))
      with (tag_text name +:+ post).
    cbn [find_tag]. rewrite prefix_append. reflexivity. }
  cbn [replace]. rewrite F.
  rewrite <- (length_append_char name "}"), replace_skip.
  rewrite (replace_no_tag _ _ _ _ (no_open_brace_no_tag _ _ Hpost)).
  destruct (callback 0 name); reflexivity.
Qed.

Lemma lookup_prop_in {A : Type} (k : string) (props : list (string * A)) :
  In k (map fst props) -> exists v, lookup_prop k props = Some v.
Proof.
  induction props as [|[k' v'] rest IH]; simpl; [contradiction|].
  destruct (String.eqb k k') eqn:E; [eauto|].
  intros [H|H]; [|exact (IH H)].
  subst. rewrite String.eqb_refl in E. discriminate.
Qed.

(** An error of the scan is an error of the callback on a name of the
    pattern. *)
Lemma replace_errors (alts : list string)
    (callback : nat -> string -> Result string) (P : Error -> Prop) :
  (forall index name e, In name alts -> callback index name = Throw e -> P e) ->
  forall text skip index e,
    replace alts callback skip index text = Throw e -> P e.
Proof.
  intros Hcb. induction text as [|c rest IH]; intros skip index e; simpl;
    [discriminate|].
  destruct skip as [|n]; [|apply IH].
  destruct (find_tag alts (String c rest)) as [name|] eqn:F.
  - apply find_tag_in in F.
    destruct (callback index name) as [new|e'] eqn:C; simpl.
    + destruct (replace alts callback (S (String.length name)) (S index) rest)
        as [out|e'] eqn:R; simpl; [discriminate|].
      intros H; injection H as <-. exact (IH _ _ _ R).
    + intros H; injection H as <-. exact (Hcb _ _ _ F C).
  - destruct (replace alts callback 0 index rest) as [out|e'] eqn:R; simpl;
      [discriminate|].
    intros H; injection H as <-. exact (IH _ _ _ R).
Qed.

Lemma validate_with_errors (params : Params) (value : JSVal) (name : string)
    (e : Error) :
  In name (map fst params) ->
  (validate_with params value name;; Ok (substituted value)) = Throw e ->
  validation_error e = true.
Proof.
  intros Hin. unfold validate_with.
  destruct (lookup_prop_in name params Hin) as [spec ->].
  destruct (validateParam value spec) eqn:V; simpl; [discriminate|].
  intros H; injection H as <-. exact (validateParam_errors _ _ _ V).
Qed.

(** X7: a text in which no declared tag occurs is returned as it is,
    whatever the parameters and the context: tokens between braces that are
    not declared stay as they are and nothing is validated. *)
Theorem template_leaves_unknown_tokens (text : string) (params : Params)
    (context : Context)
    (Hnone : has_tag (alternatives params) text = false) :
  template text (Some params) context = Ok text.
Proof.
  unfold template. destruct context; apply replace_no_tag; exact Hnone.
Qed.

Lemma template_leaves_unknown_tokens_witness :
  template "/users/{id}/{key}" (Some [("name", required_string)]) (CtxArray [])
  = Ok "/users/{id}/{key}".
Proof.
  apply (template_leaves_unknown_tokens "/users/{id}/{key}"
           [("name", required_string)] (CtxArray [])).
  reflexivity.
Defined.

(** With a declared parameter, [template] throws errors of the validator
    only. *)
Lemma template_throws_validation (text : string) (params : Params)
    (context : Context) (e : Error) :
  params <> [] -> template text (Some params) context = Throw e ->
  validation_error e = true.
Proof.
  intros Hdeclared Hthrow. unfold template in Hthrow.
  assert (A : alternatives params = map fst params)
    by (destruct params; [contradiction | reflexivity]).
  rewrite A in Hthrow.
  destruct context as [items|props];
    refine (replace_errors _ _ (fun e => validation_error e = true) _ _ _ _ _ Hthrow);
    intros index name e' Hin; apply validate_with_errors; exact Hin.
Qed.

(** X8: with at least one declared parameter, every error of [template] is
    one of the six errors of the validator: each tag the pattern matches has
    a description, so the TypeError of an undefined description is never
    raised. *)
Theorem template_errors (text : string) (params : Params) (context : Context)
    (e : Error)
    (Hdeclared : params <> [])
    (Hthrow : template text (Some params) context = Throw e) :
  validation_error e = true.
Proof. exact (template_throws_validation text params context e Hdeclared Hthrow). Qed.

Lemma template_errors_witness : validation_error MissingRequired = true.
Proof.
  apply (template_errors "/{id}" [("id", required_string)] (CtxArray [])
           MissingRequired); [discriminate | reflexivity].
Defined.



(* ===================================================================== *)
(** * What [attachMethods] puts on a context                              *)
(* ===================================================================== *)

Lemma lookup_set_prop_ne {A : Type} (k k' : string) (v : A)
    (props : list (string * A)) :
  k <> k' -> lookup_prop k (set_prop k' v props) = lookup_prop k props.
Proof.
  intros Hne. induction props as [|[x y] rest IH]; simpl.
  - destruct (String.eqb_spec k k'); [contradiction | reflexivity].
  - destruct (String.eqb_spec k' x) as [->|Hx]; simpl.
    + destruct (String.eqb_spec k x); [contradiction | reflexivity].
    + destruct (String.eqb k x); [reflexivity | exact IH].
Qed.

Lemma member_set_member_ne (name k : string) (v context : Value) :
  name <> k -> member name (set_member k v context) = member name context.
Proof. intros H. destruct context; apply lookup_set_prop_ne; exact H. Qed.

(** The request function is made when the base of the array is a text;
    otherwise [url.resolve] throws. *)
Lemma httpRequest_run (nodes : loc) (m : Method) (st : Store) :
  httpRequest nodes m st =
    if is_string (baseUri (at_loc st nodes))
    then (Ok (request_for (at_loc st nodes) nodes m), st)
    else (Throw BaseNotString, st).
Proof.
  unfold httpRequest. rewrite run_bind. unfold read at 1.
  destruct (is_string (baseUri (at_loc st nodes))); reflexivity.
Qed.

Lemma attachVerbs_run (methods : Methods) :
  forall nodes context st,
    has_base st nodes ->
    attachVerbs nodes context methods st
    = (Ok (verbs_onto (at_loc st nodes) nodes methods context), st).
Proof.
  induction methods as [|[verb m] rest IH]; intros nodes context st Hbase;
    [reflexivity|].
  cbn [attachVerbs]. rewrite run_bind, httpRequest_run, Hbase, IH by exact Hbase.
  reflexivity.
Qed.

Lemma verbs_onto_cons (n : Nodes) (nodes : loc) (verb : string) (m : Method)
    (rest : Methods) (context : Value) :
  verbs_onto n nodes ((verb, m) :: rest) context
  = verbs_onto n nodes rest (set_member verb (request_for n nodes m) context).
Proof. reflexivity. Qed.

Lemma verbs_onto_other (n : Nodes) (nodes : loc) (methods : Methods) (name : string) :
  forall context,
    ~ In name (keys methods) ->
    member name (verbs_onto n nodes methods context) = member name context.
Proof.
  induction methods as [|[verb m] rest IH]; intros context H; [reflexivity|].
  rewrite verbs_onto_cons. simpl in H. rewrite IH by tauto.
  apply member_set_member_ne. intros ->. tauto.
Qed.

Lemma verbs_onto_verb (n : Nodes) (nodes : loc) (methods : Methods)
    (verb : string) (m : Method) :
  forall context,
    NoDup (keys methods) -> In (verb, m) methods ->
    member verb (verbs_onto n nodes methods context)
    = Some (request_for n nodes m).
Proof.
  induction methods as [|[v1 m1] rest IH]; intros context Hnd Hin;
    [destruct Hin|].
  rewrite verbs_onto_cons.
  simpl in Hnd. apply NoDup_cons in Hnd as [Hfresh Hnd].
  destruct Hin as [E|Hin].
  - injection E as -> ->.
    rewrite verbs_onto_other by (intros H; apply Hfresh, list_elem_of_In, H).
    apply member_set_member.
  - apply IH; assumption.
Qed.

(** What [attachQuery] does to a context: nothing when the array has a
    query, and otherwise it sets [query] to a helper on a new array. *)
Lemma attachQuery_run (self : loc -> Value -> Methods -> M Value)
    (nodes : loc) (context : Value) (methods : Methods) (st : Store) :
  (forall l c m, Builds l (self l c m)) ->
  has_base st nodes ->
  exists context' ext,
    attachQuery self nodes context methods st = (Ok context', st ++ ext) /\
    match query (at_loc st nodes) with
    | Some _ => context' = context
    | None =>
        exists returned,
          context' = set_member "query"
                       (Function (QueryHelper (length st) methods)
                          [(RETURN_PROPERTY, returned)]) context
    end.
Proof.
  intros Hself Hbase. unfold attachQuery. rewrite run_bind. unfold read at 1.
  destruct (query (at_loc st nodes)).
  - exists context, []. rewrite app_nil_r. split; reflexivity.
  - rewrite run_bind. unfold alloc at 1. cbv zeta. rewrite run_bind.
    destruct (Hself (length st) (Object []) methods
                (st ++ [set_query (QValue VNull) (at_loc st nodes)])
                (has_base_new st (set_query (QValue VNull) (at_loc st nodes))
                   Hbase))
      as (r & ext & ->).
    eexists _, (_ :: ext). split.
    + rewrite <- app_assoc. reflexivity.
    + exists r. reflexivity.
Qed.

Lemma attachHeaders_run (self : loc -> Value -> Methods -> M Value)
    (nodes : loc) (context : Value) (methods : Methods) (st : Store) :
  (forall l c m, Builds l (self l c m)) ->
  has_base st nodes ->
  exists context' ext,
    attachHeaders self nodes context methods st = (Ok context', st ++ ext) /\
    match headers (at_loc st nodes) with
    | Some _ => context' = context
    | None =>
        exists returned,
          context' = set_member "headers"
                       (Function (HeadersHelper (length st) methods)
                          [(RETURN_PROPERTY, returned)]) context
    end.
Proof.
  intros Hself Hbase. unfold attachHeaders. rewrite run_bind. unfold read at 1.
  destruct (headers (at_loc st nodes)).
  - exists context, []. rewrite app_nil_r. split; reflexivity.
  - rewrite run_bind. unfold alloc at 1. cbv zeta. rewrite run_bind.
    destruct (Hself (length st) (Object []) methods
                (st ++ [set_headers VNull (at_loc st nodes)])
                (has_base_new st (set_headers VNull (at_loc st nodes)) Hbase))
      as (r & ext & ->).
    eexists _, (_ :: ext). split.
    + rewrite <- app_assoc. reflexivity.
    + exists r. reflexivity.
Qed.

Lemma attachMethods_unfold (nodes : loc) (context : Value) (methods : Methods) :
  attachMethods nodes context methods =
    (c ← attachQuery (attachMethods_fuel 2) nodes context methods;
     c ← attachHeaders (attachMethods_fuel 2) nodes c methods;
     attachVerbs nodes c methods).
Proof. reflexivity. Qed.

(** What [attachMethods] does to a context: the helpers the array has room
    for, then the verbs. *)
Lemma attachMethods_run (nodes : loc) (context : Value) (methods : Methods)
    (st : Store) :
  has_base st nodes ->
  exists helped ext,
    attachMethods nodes context methods st
    = (Ok (verbs_onto (at_loc st nodes) nodes methods helped), st ++ ext) /\
    (forall name, name <> "query" -> name <> "headers" ->
       member name helped = member name context) /\
    match query (at_loc st nodes) with
    | Some _ => member "query" helped = member "query" context
    | None =>
        exists l props, length st <= l /\
          member "query" helped = Some (Function (QueryHelper l methods) props)
    end /\
    match headers (at_loc st nodes) with
    | Some _ => member "headers" helped = member "headers" context
    | None =>
        exists l props, length st <= l /\
          member "headers" helped = Some (Function (HeadersHelper l methods) props)
    end.
Proof.
  intros Hbase. pose proof (has_base_valid st nodes Hbase) as Hl.
  rewrite attachMethods_unfold, run_bind.
  destruct (attachQuery_run (attachMethods_fuel 2) nodes context methods st
              (builds_attachMethods_fuel 2) Hbase) as (c1 & ext1 & -> & Hq).
  rewrite run_bind.
  destruct (attachHeaders_run (attachMethods_fuel 2) nodes c1 methods (st ++ ext1)
              (builds_attachMethods_fuel 2) (has_base_app st ext1 nodes Hbase))
    as (c2 & ext2 & -> & Hh).
  rewrite attachVerbs_run
    by (apply has_base_app, has_base_app; exact Hbase).
  rewrite <- app_assoc, !at_loc_app in *
    by (rewrite ?length_app; lia).
  rewrite ?(at_loc_app st ext1 nodes Hl) in Hh.
  exists c2, (ext1 ++ ext2). split; [reflexivity|].
  destruct (query (at_loc st nodes)), (headers (at_loc st nodes)).
  - subst. repeat split; reflexivity.
  - destruct Hh as (r2 & ->). subst c1. split; [|split].
    + intros name _ H. apply member_set_member_ne. exact H.
    + apply member_set_member_ne. discriminate.
    + eexists _, _. split; [|apply member_set_member]. rewrite length_app. lia.
  - destruct Hq as (r1 & ->). subst c2. split; [|split].
    + intros name H _. apply member_set_member_ne. exact H.
    + eexists _, _. split; [|apply member_set_member]. lia.
    + apply member_set_member_ne. discriminate.
  - destruct Hq as (r1 & ->). destruct Hh as (r2 & ->). split; [|split].
    + intros name H1 H2. rewrite !member_set_member_ne by assumption. reflexivity.
    + eexists _, _. split; [|rewrite member_set_member_ne by discriminate;
                              apply member_set_member]. lia.
    + eexists _, _. split; [|apply member_set_member]. rewrite length_app. lia.
Qed.

Lemma attachQuery_skip (self : loc -> Value -> Methods -> M Value)
    (nodes : loc) (context : Value) (methods : Methods) (st : Store) :
  query (at_loc st nodes) <> None ->
  attachQuery self nodes context methods st = (Ok context, st).
Proof.
  intros H. unfold attachQuery. rewrite run_bind. unfold read at 1.
  destruct (query (at_loc st nodes)); [reflexivity | contradiction].
Qed.

Lemma attachQuery_clone (self : loc -> Value -> Methods -> M Value)
    (nodes : loc) (context : Value) (methods : Methods) (st : Store) :
  query (at_loc st nodes) = None ->
  attachQuery self nodes context methods st =
    (returned ← self (length st) (Object []) methods;
     mret (set_member "query"
             (set_member RETURN_PROPERTY returned
                (Function (QueryHelper (length st) methods) [])) context))
      (st ++ [set_query (QValue VNull) (at_loc st nodes)]).
Proof.
  intros H. unfold attachQuery. rewrite run_bind. unfold read at 1.
  rewrite H. reflexivity.
Qed.

Lemma attachHeaders_skip (self : loc -> Value -> Methods -> M Value)
    (nodes : loc) (context : Value) (methods : Methods) (st : Store) :
  headers (at_loc st nodes) <> None ->
  attachHeaders self nodes context methods st = (Ok context, st).
Proof.
  intros H. unfold attachHeaders. rewrite run_bind. unfold read at 1.
  destruct (headers (at_loc st nodes)); [reflexivity | contradiction].
Qed.

Lemma attachHeaders_clone (self : loc -> Value -> Methods -> M Value)
    (nodes : loc) (context : Value) (methods : Methods) (st : Store) :
  headers (at_loc st nodes) = None ->
  attachHeaders self nodes context methods st =
    (returned ← self (length st) (Object []) methods;
     mret (set_member "headers"
             (set_member RETURN_PROPERTY returned
                (Function (HeadersHelper (length st) methods) [])) context))
      (st ++ [set_headers VNull (at_loc st nodes)]).
Proof.
  intros H. unfold attachHeaders. rewrite run_bind. unfold read at 1.
  rewrite H. reflexivity.
Qed.

(** On an array whose base is not a text, with a method to attach,
    [attachMethods] throws the error of [url.resolve]: the first request
    function it comes to make, on the array or on the copy of a helper,
    cannot resolve its address. *)
Lemma attachMethods_fuel_throws (fuel : nat) :
  forall nodes context methods st,
    is_string (baseUri (at_loc st nodes)) = false ->
    methods <> [] ->
    missing (at_loc st nodes) < fuel ->
    exists st',
      attachMethods_fuel fuel nodes context methods st
      = (Throw BaseNotString, st').
Proof.
  induction fuel as [|fuel IH]; intros nodes context methods st Hbase Hm Hfuel;
    [lia|].
  cbn [attachMethods_fuel]. rewrite run_bind.
  unfold missing in Hfuel.
  destruct (query (at_loc st nodes)) as [q|] eqn:Q.
  - rewrite attachQuery_skip by (rewrite Q; discriminate). rewrite run_bind.
    destruct (headers (at_loc st nodes)) as [h|] eqn:H.
    + rewrite attachHeaders_skip by (rewrite H; discriminate).
      destruct methods as [|[verb m] rest]; [contradiction|].
      cbn [attachVerbs]. rewrite run_bind, httpRequest_run, Hbase.
      eexists. reflexivity.
    + rewrite (attachHeaders_clone _ _ _ _ _ H), run_bind.
      destruct (IH (length st) (Object []) methods
                  (st ++ [set_headers VNull (at_loc st nodes)])) as (st' & ->).
      * rewrite at_loc_new. exact Hbase.
      * exact Hm.
      * rewrite at_loc_new. unfold missing. simpl. rewrite Q. simpl in *. lia.
      * eexists. reflexivity.
  - rewrite (attachQuery_clone _ _ _ _ _ Q), run_bind.
    destruct (IH (length st) (Object []) methods
                (st ++ [set_query (QValue VNull) (at_loc st nodes)])) as (st' & ->).
    + rewrite at_loc_new. exact Hbase.
    + exact Hm.
    + rewrite at_loc_new. unfold missing. simpl.
      destruct (headers (at_loc st nodes)); simpl in *; lia.
    + eexists. reflexivity.
Qed.

Lemma attachMethods_throws (nodes : loc) (context : Value) (methods : Methods)
    (st : Store) :
  is_string (baseUri (at_loc st nodes)) = false ->
  methods <> [] ->
  exists st', attachMethods nodes context methods st = (Throw BaseNotString, st').
Proof.
  intros Hbase Hm. apply attachMethods_fuel_throws; [exact Hbase | exact Hm |].
  unfold missing.
  destruct (query (at_loc st nodes)), (headers (at_loc st nodes)); simpl; lia.
Qed.

Lemma at_loc_insert (st : Store) (l : loc) (x : Nodes) :
  l < length st -> at_loc (<[l := x]> st) l = x.
Proof.
  intros H. unfold at_loc. rewrite list_lookup_insert_eq by exact H. reflexivity.
Qed.

(** Writing an array leaves it its base when what is written has it. *)
Lemma has_base_insert (st : Store) (l : loc) (x : Nodes) :
  has_base st l -> baseUri x = baseUri (at_loc st l) ->
  has_base (<[l := x]> st) l.
Proof.
  intros H E. unfold has_base.
  rewrite at_loc_insert by (apply has_base_valid, H). rewrite E. exact H.
Qed.

(** A call of a query helper: the query is stored and a context is built
    on the array. *)
Lemma call_query_run (routeNodes : loc) (methods : Methods) (args : list JSVal)
    (st : Store) :
  call_query routeNodes methods args st
  = (Graph <$> attachMethods routeNodes (Object []) methods)
      (<[routeNodes :=
           set_query (stored_query (default VUndefined (args !! 0)))
             (at_loc st routeNodes)]> st).
Proof. reflexivity. Qed.

(** A call of a headers helper with an object. *)
Lemma call_headers_run (routeNodes : loc) (methods : Methods) (args : list JSVal)
    (st : Store) :
  typeof_object (default VUndefined (args !! 0)) = true ->
  call_headers routeNodes methods args st
  = (Graph <$> attachMethods routeNodes (Object []) methods)
      (<[routeNodes :=
           set_headers (default VUndefined (args !! 0)) (at_loc st routeNodes)]> st).
Proof. intros H. unfold call_headers. cbv zeta. rewrite H. reflexivity. Qed.

(** X10: on an array of the store whose base address is a text,
    [attachMethods] returns a context in which every verb of the methods
    that is not the name of a built-in property is a request function;
    called, it hands the middleware a request to the address of the array,
    with the method of that verb and the headers of the array.  On an array
    whose base is not a text, and with a method to attach, it throws the
    error of [url.resolve]. *)
Theorem attachMethods_verbs (nodes : loc) (context : Value) (methods : Methods)
    (st : Store) (verb : string) (m : Method) (data : list JSVal)
    (Hnodes : nodes < length st)
    (Hplain : built_in verb = false)
    (Hkeys : NoDup (keys methods))
    (Hverb : In (verb, m) methods) :
  (has_base st nodes ->
   exists c ext f options,
     attachMethods nodes context methods st = (Ok c, st ++ ext) /\
     member verb c = Some f /\
     invoke f data (st ++ ext) = (Ok (Sent options), st ++ ext) /\
     opt_url options = address (at_loc st nodes) /\
     opt_method options = method m /\
     opt_headers options = default VUndefined (headers (at_loc st nodes))) /\
  (is_string (baseUri (at_loc st nodes)) = false ->
   exists st',
     attachMethods nodes context methods st = (Throw BaseNotString, st')).
Proof.
  split.
  - intros Hbase.
    destruct (attachMethods_run nodes context methods st Hbase)
      as (helped & ext & E & _).
    eexists _, ext, _, _. split; [exact E|].
    split; [apply (verbs_onto_verb _ _ _ _ m); assumption|].
    split; [reflexivity|].
    simpl. rewrite (at_loc_app st ext nodes Hnodes). repeat split.
  - intros Hbase. apply attachMethods_throws; [exact Hbase|].
    intros ->. exact Hverb.
Qed.

Lemma attachMethods_verbs_witness :
  (exists c ext f options,
     attachMethods 0 (Object []) GET start = (Ok c, start ++ ext) /\
     member "get" c = Some f /\
     invoke f [] (start ++ ext) = (Ok (Sent options), start ++ ext) /\
     opt_url options = address (at_loc start 0) /\
     opt_method options = VStr "get" /\
     opt_headers options = default VUndefined (headers (at_loc start 0))) /\
  (exists st',
     attachMethods 0 (Object []) GET [root_nodes VUndefined]
     = (Throw BaseNotString, st')).
Proof.
  split.
  - apply (attachMethods_verbs 0 (Object []) GET start "get"
             {| method := VStr "get" |} []).
    + simpl. lia.
    + reflexivity.
    + repeat constructor. intros H. inversion H.
    + left. reflexivity.
    + reflexivity.
  - apply (attachMethods_verbs 0 (Object []) GET [root_nodes VUndefined] "get"
             {| method := VStr "get" |} []).
    + simpl. lia.
    + reflexivity.
    + repeat constructor. intros H. inversion H.
    + left. reflexivity.
    + reflexivity.
Defined.

(** X11: the context a call of a query helper returns has no [query]
    member, so a query is set once on a branch; when the array of the helper
    has no headers yet, the context has a headers helper.  The array of the
    helper has a text for base address. *)
Theorem query_helper_once (routeNodes : loc) (methods : Methods)
    (args : list JSVal) (st : Store)
    (Hnodes : routeNodes < length st)
    (Hbase : has_base st routeNodes)
    (Hquery : ~ In "query" (keys methods)) :
  exists c st',
    call_query routeNodes methods args st = (Ok (Graph c), st') /\
    member "query" c = None /\
    (headers (at_loc st routeNodes) = None -> ~ In "headers" (keys methods) ->
     exists l props,
       member "headers" c = Some (Function (HeadersHelper l methods) props)).
Proof.
  rewrite call_query_run, run_fmap.
  set (st1 := <[routeNodes := _]> st).
  assert (L : has_base st1 routeNodes)
    by (subst st1; apply has_base_insert; [exact Hbase | reflexivity]).
  destruct (attachMethods_run routeNodes (Object []) methods st1 L)
    as (helped & ext & -> & _ & Hq & Hh).
  assert (A : at_loc st1 routeNodes
              = set_query (stored_query (default VUndefined (args !! 0)))
                  (at_loc st routeNodes))
    by (subst st1; apply at_loc_insert; exact Hnodes).
  rewrite A in Hq, Hh. simpl in Hq, Hh.
  eexists _, _. split; [reflexivity|]. split.
  - rewrite verbs_onto_other by exact Hquery. exact Hq.
  - intros Hnone Hheaders. rewrite Hnone in Hh.
    destruct Hh as (l & props & _ & Hh). exists l, props.
    rewrite verbs_onto_other by exact Hheaders. exact Hh.
Qed.

Lemma query_helper_once_witness :
  exists c st',
    call_query 0 GET [VStr "a=1"] start = (Ok (Graph c), st') /\
    member "query" c = None /\
    (headers (at_loc start 0) = None -> ~ In "headers" (keys GET) ->
     exists l props,
       member "headers" c = Some (Function (HeadersHelper l GET) props)).
Proof.
  apply (query_helper_once 0 GET [VStr "a=1"] start).
  - simpl. lia.
  - reflexivity.
  - simpl. intros [H|[]]. discriminate.
Defined.

(** X12: the context a call of a headers helper returns has no [headers]
    member, so headers are set once on a branch; when the array of the helper
    has no query yet, the context has a query helper.  The array of the
    helper has a text for base address. *)
Theorem headers_helper_once (routeNodes : loc) (methods : Methods)
    (args : list JSVal) (st : Store)
    (Hnodes : routeNodes < length st)
    (Hbase : has_base st routeNodes)
    (Hobject : typeof_object (default VUndefined (args !! 0)) = true)
    (Hheaders : ~ In "headers" (keys methods)) :
  exists c st',
    call_headers routeNodes methods args st = (Ok (Graph c), st') /\
    member "headers" c = None /\
    (query (at_loc st routeNodes) = None -> ~ In "query" (keys methods) ->
     exists l props,
       member "query" c = Some (Function (QueryHelper l methods) props)).
Proof.
  rewrite (call_headers_run _ _ _ _ Hobject), run_fmap.
  set (st1 := <[routeNodes := _]> st).
  assert (L : has_base st1 routeNodes)
    by (subst st1; apply has_base_insert; [exact Hbase | reflexivity]).
  destruct (attachMethods_run routeNodes (Object []) methods st1 L)
    as (helped & ext & -> & _ & Hq & Hh).
  assert (A : at_loc st1 routeNodes
              = set_headers (default VUndefined (args !! 0)) (at_loc st routeNodes))
    by (subst st1; apply at_loc_insert; exact Hnodes).
  rewrite A in Hq, Hh. simpl in Hq, Hh.
  eexists _, _. split; [reflexivity|]. split.
  - rewrite verbs_onto_other by exact Hheaders. exact Hh.
  - intros Hnone Hquery. rewrite Hnone in Hq.
    destruct Hq as (l & props & _ & Hq). exists l, props.
    rewrite verbs_onto_other by exact Hquery. exact Hq.
Qed.

Lemma headers_helper_once_witness :
  exists c st',
    call_headers 0 GET [VObj [("X", VStr "1")]] start = (Ok (Graph c), st') /\
    member "headers" c = None /\
    (query (at_loc start 0) = None -> ~ In "query" (keys GET) ->
     exists l props,
       member "query" c = Some (Function (QueryHelper l GET) props)).
Proof.
  apply (headers_helper_once 0 GET [VObj [("X", VStr "1")]] start).
  - simpl. lia.
  - reflexivity.
  - reflexivity.
  - simpl. intros [H|[]]. discriminate.
Defined.

(** X13: a headers helper called with a value whose [typeof] is not
    ['object'] (a text, a number, a boolean, undefined) throws InvalidHeaders
    and leaves the store as it was; called with an object, or with null, it
    stores the value on its array and, the base address of the array being a
    text, returns a context. *)
Theorem headers_helper_argument (routeNodes : loc) (methods : Methods)
    (args : list JSVal) (st : Store) :
  (typeof_object (default VUndefined (args !! 0)) = false ->
   call_headers routeNodes methods args st = (Throw InvalidHeaders, st)) /\
  (typeof_object (default VUndefined (args !! 0)) = true ->
   has_base st routeNodes ->
   exists c ext,
     call_headers routeNodes methods args st
     = (Ok (Graph c),
        <[routeNodes :=
            set_headers (default VUndefined (args !! 0)) (at_loc st routeNodes)]> st
        ++ ext)) /\
  typeof_object VNull = true /\ typeof_object VUndefined = false.
Proof.
  split; [|split; [|split; reflexivity]].
  - intros H. unfold call_headers. cbv zeta. rewrite H. reflexivity.
  - intros H Hbase. rewrite (call_headers_run _ _ _ _ H), run_fmap.
    destruct (builds_attachMethods routeNodes (Object []) methods
                (<[routeNodes :=
                     set_headers (default VUndefined (args !! 0))
                       (at_loc st routeNodes)]> st)) as (c & ext & ->).
    { apply has_base_insert; [exact Hbase | reflexivity]. }
    exists c, ext. reflexivity.
Qed.

(** X14: in the context a call of a query helper returns, every verb is a
    request function whose address has the base and the path of the array and
    the query that was given: a text as it is, an object as the text
    [qs.stringify] makes of it, and no query at all for any other value.  The
    array of the helper has a text for base address. *)
Theorem query_reaches_address (routeNodes : loc) (methods : Methods)
    (q : JSVal) (more : list JSVal) (st : Store) (verb : string) (m : Method)
    (Hnodes : routeNodes < length st)
    (Hbase : has_base st routeNodes)
    (Hkeys : NoDup (keys methods))
    (Hverb : In (verb, m) methods) :
  exists c st' url,
    call_query routeNodes methods (q :: more) st = (Ok (Graph c), st') /\
    member verb c = Some (Function (Request url routeNodes m) []) /\
    url_base url = baseUri (at_loc st routeNodes) /\
    url_path url = strip_slashes (join "/" (segments (at_loc st routeNodes))) /\
    url_query url =
      if isObject q then Some (QStringify q)
      else match q with
           | VStr _ => Some (QValue q)
           | _ => None
           end.
Proof.
  rewrite call_query_run, run_fmap.
  set (st1 := <[routeNodes := _]> st).
  assert (L : has_base st1 routeNodes)
    by (subst st1; apply has_base_insert; [exact Hbase | reflexivity]).
  destruct (attachMethods_run routeNodes (Object []) methods st1 L)
    as (helped & ext & -> & _).
  assert (A : at_loc st1 routeNodes
              = set_query (stored_query q) (at_loc st routeNodes))
    by (subst st1; apply at_loc_insert; exact Hnodes).
  rewrite A.
  eexists _, _, _. split; [reflexivity|].
  split; [apply (verbs_onto_verb _ _ _ _ m); assumption|].
  split; [reflexivity|]. split; [reflexivity|].
  unfold stored_query. destruct q; reflexivity.
Qed.

Lemma query_reaches_address_witness :
  exists c st' url,
    call_query 0 GET [int 5] start = (Ok (Graph c), st') /\
    member "get" c = Some (Function (Request url 0 {| method := VStr "get" |}) []) /\
    url_base url = baseUri (at_loc start 0) /\
    url_path url = strip_slashes (join "/" (segments (at_loc start 0))) /\
    url_query url = None.
Proof.
  apply (query_reaches_address 0 GET (int 5) [] start "get"
           {| method := VStr "get" |}).
  - simpl. lia.
  - reflexivity.
  - repeat constructor. intros H. inversion H.
  - left. reflexivity.
Defined.

(** X15: in the context a call of a headers helper returns, every verb is a
    request function that, called before any other call, hands the
    middleware the headers that were given, with the address of the array
    and the method of the verb.  The array of the helper has a text for base
    address. *)
Theorem headers_reach_request (routeNodes : loc) (methods : Methods)
    (h : JSVal) (more data : list JSVal) (st : Store) (verb : string)
    (m : Method)
    (Hnodes : routeNodes < length st)
    (Hbase : has_base st routeNodes)
    (Hobject : typeof_object h = true)
    (Hkeys : NoDup (keys methods))
    (Hverb : In (verb, m) methods) :
  exists c st' f options,
    call_headers routeNodes methods (h :: more) st = (Ok (Graph c), st') /\
    member verb c = Some f /\
    invoke f data st' = (Ok (Sent options), st') /\
    opt_headers options = h /\
    opt_url options = address (at_loc st routeNodes) /\
    opt_method options = method m.
Proof.
  rewrite (call_headers_run routeNodes methods (h :: more) st Hobject), run_fmap.
  change (default VUndefined ((h :: more) !! 0)) with h.
  set (st1 := <[routeNodes := _]> st).
  assert (L : has_base st1 routeNodes)
    by (subst st1; apply has_base_insert; [exact Hbase | reflexivity]).
  destruct (attachMethods_run routeNodes (Object []) methods st1 L)
    as (helped & ext & -> & _).
  assert (A : at_loc st1 routeNodes = set_headers h (at_loc st routeNodes))
    by (subst st1; apply at_loc_insert; exact Hnodes).
  rewrite A.
  eexists _, _, _, _. split; [reflexivity|].
  split; [apply (verbs_onto_verb _ _ _ _ m); assumption|].
  split; [reflexivity|].
  simpl. rewrite (at_loc_app st1 ext routeNodes (has_base_valid _ _ L)), A.
  repeat split.
Qed.

Lemma headers_reach_request_witness :
  exists c st' f options,
    call_headers 0 GET [VObj [("X", VStr "1")]] start = (Ok (Graph c), st') /\
    member "get" c = Some f /\
    invoke f [] st' = (Ok (Sent options), st') /\
    opt_headers options = VObj [("X", VStr "1")] /\
    opt_url options = address (at_loc start 0) /\
    opt_method options = VStr "get".
Proof.
  apply (headers_reach_request 0 GET (VObj [("X", VStr "1")]) [] [] start "get"
           {| method := VStr "get" |}).
  - simpl. lia.
  - reflexivity.
  - reflexivity.
  - repeat constructor. intros H. inversion H.
  - left. reflexivity.
Defined.

(* ===================================================================== *)
(** * What [attachResources] puts on a context                            *)
(* ===================================================================== *)

Lemma at_loc_pushed (st ext : Store) (x : Nodes) :
  at_loc ((st ++ [x]) ++ ext) (length st) = x.
Proof.
  rewrite at_loc_app by (rewrite length_app; simpl; lia). apply at_loc_new.
Qed.

(** What the callback does with a resource that declares no parameter: the
    member under the route, a new object when there is none, gets the
    methods and the resources below. *)
Lemma attachResource_static_run (nodes : loc) (context : Value) (route : string)
    (resource : Resource) (st : Store) :
  templateTags resource = [] ->
  has_base st nodes ->
  exists helped ext1 ext2 child,
    attachMethods (length st) (default (Object []) (member route context))
      (methods resource) (st ++ [pushed route (at_loc st nodes)])
    = (Ok helped, (st ++ [pushed route (at_loc st nodes)]) ++ ext1) /\
    attachResources (length st) helped (resources resource)
      ((st ++ [pushed route (at_loc st nodes)]) ++ ext1)
    = (Ok child, ((st ++ [pushed route (at_loc st nodes)]) ++ ext1) ++ ext2) /\
    attachResource nodes context route resource st
    = (Ok (set_member route child context),
       ((st ++ [pushed route (at_loc st nodes)]) ++ ext1) ++ ext2).
Proof.
  intros Htags Hbase. destruct resource as [params ms below].
  unfold templateTags in Htags. simpl in Htags.
  pose proof (has_base_pushed st nodes route Hbase) as Hpushed.
  fold (pushed route (at_loc st nodes)) in Hpushed.
  destruct (builds_attachMethods (length st)
              (default (Object []) (member route context)) ms
              (st ++ [pushed route (at_loc st nodes)]) Hpushed)
    as (helped & ext1 & E1).
  destruct (builds_attachResources below (length st) helped
              ((st ++ [pushed route (at_loc st nodes)]) ++ ext1)
              (has_base_app _ ext1 _ Hpushed))
    as (child & ext2 & E2).
  exists helped, ext1, ext2, child. split; [exact E1|]. split; [exact E2|].
  rewrite attachResource_unfold.
  rewrite run_bind. unfold read at 1. rewrite run_bind. unfold alloc at 1.
  rewrite run_bind. unfold write at 1. rewrite insert_new.
  fold (pushed route (at_loc st nodes)).
  assert (K : match keys <$> params with
              | Some (_ :: _) => False
              | _ => True
              end).
  { destruct params as [[|p ps]|]; simpl in *; try exact I. discriminate. }
  destruct (keys <$> params) as [[|tag tags]|]; try contradiction;
    rewrite run_bind, E1, run_bind, E2; reflexivity.
Qed.

Lemma code_of_set_member (k : string) (v context : Value) :
  code_of (set_member k v context) = code_of context.
Proof. destruct context; reflexivity. Qed.

Lemma code_of_verbs_onto (n : Nodes) (nodes : loc) (methods : Methods) :
  forall context, code_of (verbs_onto n nodes methods context) = code_of context.
Proof.
  induction methods as [|[verb m] rest IH]; intros context; [reflexivity|].
  rewrite verbs_onto_cons, IH. apply code_of_set_member.
Qed.

(** [attachMethods] sets members of the context it is given: a function
    stays the function it was. *)
Lemma attachMethods_code (nodes : loc) (context : Value) (methods : Methods)
    (st : Store) (c : Value) (st' : Store) :
  has_base st nodes ->
  attachMethods nodes context methods st = (Ok c, st') ->
  code_of c = code_of context.
Proof.
  intros Hbase. rewrite attachMethods_unfold, run_bind.
  destruct (attachQuery_run (attachMethods_fuel 2) nodes context methods st
              (builds_attachMethods_fuel 2) Hbase) as (c1 & ext1 & -> & Hq).
  rewrite run_bind.
  destruct (attachHeaders_run (attachMethods_fuel 2) nodes c1 methods (st ++ ext1)
              (builds_attachMethods_fuel 2) (has_base_app st ext1 nodes Hbase))
    as (c2 & ext2 & -> & Hh).
  rewrite attachVerbs_run by (apply has_base_app, has_base_app; exact Hbase).
  intros H. injection H as <- _.
  rewrite code_of_verbs_onto.
  assert (E1 : code_of c1 = code_of context).
  { destruct (query (at_loc st nodes)); [subst; reflexivity|].
    destruct Hq as (r & ->). apply code_of_set_member. }
  assert (E2 : code_of c2 = code_of c1).
  { destruct (headers (at_loc (st ++ ext1) nodes)); [subst; reflexivity|].
    destruct Hh as (r & ->). apply code_of_set_member. }
  congruence.
Qed.

Lemma templateTags_some (resource : Resource) (tag : string) (tags : list string) :
  templateTags resource = tag :: tags ->
  keys <$> uriParameters resource = Some (tag :: tags).
Proof.
  unfold templateTags. destruct (uriParameters resource); simpl;
    [congruence | discriminate].
Qed.

(** What the callback does with a resource that declares parameters, in
    terms of [templateTags]. *)
Lemma attachResource_dynamic_cases (nodes : loc) (context : Value)
    (route : string) (resource : Resource) (st : Store) :
  templateTags resource <> [] ->
  has_base st nodes ->
  exists st',
    (attachResource nodes context route resource st = (Ok context, st') /\
     (Regex.test route_re route = false \/
      reserved (routeNameOf route (templateTags resource)) = true)) \/
    (Regex.test route_re route = true /\
     reserved (routeNameOf route (templateTags resource)) = false /\
     exists returned,
       attachResource nodes context route resource st
       = (Ok (set_member (routeNameOf route (templateTags resource))
                (set_member RETURN_PROPERTY returned
                   (extend (Accessor (length (templateTags resource)) route
                              resource (length st))
                      (member (routeNameOf route (templateTags resource))
                         context)))
                context), st')).
Proof.
  intros Hne Hbase. destruct (templateTags resource) as [|tag tags] eqn:T;
    [contradiction|].
  pose proof (attachResource_dynamic_run nodes context route resource st
                (tag :: tags) (templateTags_some _ _ _ T) Hne Hbase) as H.
  cbv zeta in H.
  destruct (Regex.test route_re route);
    destruct (reserved (routeNameOf route (tag :: tags))); simpl in H.
  - destruct H as (st' & H). exists st'. left. split; [exact H | auto].
  - destruct H as (returned & st' & H). exists st'. right.
    split; [reflexivity|]. split; [reflexivity|]. exists returned. exact H.
  - destruct H as (st' & H). exists st'. left. split; [exact H | auto].
  - destruct H as (st' & H). exists st'. left. split; [exact H | auto].
Qed.

(** The callback sets members of the context it is given: a function stays
    the function it was. *)
Lemma attachResource_code (nodes : loc) (context : Value) (route : string)
    (resource : Resource) (st : Store) (c : Value) (st' : Store) :
  has_base st nodes ->
  attachResource nodes context route resource st = (Ok c, st') ->
  code_of c = code_of context.
Proof.
  intros Hbase. destruct (templateTags resource) as [|tag tags] eqn:T.
  - destruct (attachResource_static_run nodes context route resource st T Hbase)
      as (helped & ext1 & ext2 & child & _ & _ & ->).
    intros H. injection H as <- _. apply code_of_set_member.
  - destruct (attachResource_dynamic_cases nodes context route resource st)
      as (s & [[-> _]|(_ & _ & returned & ->)]);
      [rewrite T; discriminate | exact Hbase |..];
      intros H; injection H as <- _; [reflexivity | apply code_of_set_member].
Qed.

Lemma attachResources_code (resources : list (string * Resource)) :
  forall nodes context st c st',
    has_base st nodes ->
    attachResources nodes context resources st = (Ok c, st') ->
    code_of c = code_of context.
Proof.
  induction resources as [|[route r] rest IH];
    intros nodes context st c st' Hbase; simpl.
  - intros H. injection H as <- _. reflexivity.
  - rewrite run_bind.
    destruct (builds_attachResource r nodes context route st Hbase)
      as (c1 & e1 & E).
    rewrite E. intros H.
    rewrite (IH _ _ _ _ _ (has_base_app st e1 nodes Hbase) H).
    exact (attachResource_code _ _ _ _ _ _ _ Hbase E).
Qed.

Lemma code_of_function (v : Value) (code : Code) :
  code_of v = Some code -> exists props, v = Function code props.
Proof. destruct v; simpl; intros H; [discriminate|]. injection H as ->. eauto. Qed.

(** A function under a reserved name stays that function when a resource is
    attached. *)
Lemma attachResource_keeps_code (nodes : loc) (context : Value) (route : string)
    (resource : Resource) (st : Store) (k : string) (code : Code)
    (props : list (string * Value)) (c : Value) (st' : Store) :
  member k context = Some (Function code props) -> reserved k = true ->
  has_base st nodes ->
  attachResource nodes context route resource st = (Ok c, st') ->
  exists props', member k c = Some (Function code props').
Proof.
  intros Hk Hres Hbase. destruct (templateTags resource) as [|tag tags] eqn:T.
  - destruct (attachResource_static_run nodes context route resource st T Hbase)
      as (helped & ext1 & ext2 & child & E1 & E2 & ->).
    intros H. injection H as <- _.
    pose proof (has_base_pushed st nodes route Hbase) as Hpushed.
    fold (pushed route (at_loc st nodes)) in Hpushed.
    destruct (String.eqb_spec k route) as [->|Hne].
    + rewrite member_set_member.
      apply attachMethods_code in E1; [|exact Hpushed].
      apply attachResources_code in E2;
        [|apply has_base_app; exact Hpushed].
      rewrite Hk in E1. simpl in E1.
      destruct (code_of_function child code) as (props' & ->); [congruence|].
      eauto.
    + rewrite member_set_member_ne by exact Hne. eauto.
  - destruct (attachResource_dynamic_cases nodes context route resource st)
      as (s & [[-> _]|(_ & R & returned & ->)]);
      [rewrite T; discriminate | exact Hbase |..];
      intros H; injection H as <- _.
    + eauto.
    + rewrite member_set_member_ne; [eauto|].
      intros ->. rewrite T in Hres. congruence.
Qed.

Lemma attachResources_keep_code (resources : list (string * Resource)) :
  forall nodes context st k code props c st',
    member k context = Some (Function code props) -> reserved k = true ->
    has_base st nodes ->
    attachResources nodes context resources st = (Ok c, st') ->
    exists props', member k c = Some (Function code props').
Proof.
  induction resources as [|[route r] rest IH];
    intros nodes context st k code props c st' Hk Hres Hbase; simpl.
  - intros H. injection H as <- _. eauto.
  - rewrite run_bind.
    destruct (builds_attachResource r nodes context route st Hbase)
      as (c1 & e1 & E).
    rewrite E. intros H.
    destruct (attachResource_keeps_code _ _ _ _ _ _ _ _ _ _ Hk Hres Hbase E)
      as (props1 & Hk1).
    exact (IH _ _ _ _ _ _ _ _ Hk1 Hres (has_base_app st e1 nodes Hbase) H).
Qed.

Lemma attachResource_keeps_other (nodes : loc) (context : Value) (route : string)
    (resource : Resource) (st : Store) (name : string) (c : Value) (st' : Store) :
  name <> route -> name <> routeNameOf route (templateTags resource) ->
  has_base st nodes ->
  attachResource nodes context route resource st = (Ok c, st') ->
  member name c = member name context.
Proof.
  intros H1 H2 Hbase. destruct (templateTags resource) as [|tag tags] eqn:T.
  - destruct (attachResource_static_run nodes context route resource st T Hbase)
      as (helped & ext1 & ext2 & child & _ & _ & ->).
    intros H. injection H as <- _. apply member_set_member_ne. exact H1.
  - destruct (attachResource_dynamic_cases nodes context route resource st)
      as (s & [[-> _]|(_ & _ & returned & ->)]);
      [rewrite T; discriminate | exact Hbase |..];
      intros H; injection H as <- _.
    + reflexivity.
    + rewrite T. apply member_set_member_ne. exact H2.
Qed.

(** X16: on an array whose base address is a text, and with no route that
    is the name of a built-in property, attaching resources does not throw,
    whatever the parameters and the methods, and it leaves every array of the
    store as it was: the store it ends with is the store it started with,
    followed by new arrays. *)
Theorem attachResources_only_adds (resources : list (string * Resource))
    (nodes : loc) (context : Value) (st : Store)
    (Hbase : has_base st nodes)
    (Hplain : plain_routes resources = true) :
  exists context' ext,
    attachResources nodes context resources st = (Ok context', st ++ ext).
Proof. exact (builds_attachResources resources nodes context st Hbase). Qed.

Lemma attachResources_only_adds_witness :
  exists context' ext,
    attachResources 0 (Object []) users_id_api start = (Ok context', start ++ ext).
Proof.
  apply (attachResources_only_adds users_id_api 0 (Object []) start);
    reflexivity.
Defined.



(** X18: a resource that declares no parameter, on an array whose base
    address is a text, is attached under its route when neither the route
    nor a route below it is the name of a built-in property ([constructor],
    [length] and the like, which a context has before anything is attached),
    and every reserved verb among its methods is there a request function on
    the array of the route, made when the resource is attached: its address
    has the base of the array above and, for path, the segments of the array
    above followed by the route. *)
Theorem static_route_verbs (nodes : loc) (context : Value) (route : string)
    (resource : Resource) (st : Store) (verb : string) (m : Method)
    (Hbase : has_base st nodes)
    (Hplain : plain_resource route resource = true)
    (Hstatic : templateTags resource = [])
    (Hkeys : NoDup (keys (methods resource)))
    (Hverb : In (verb, m) (methods resource))
    (Hreserved : reserved verb = true) :
  exists context' st' child url props,
    attachResource nodes context route resource st = (Ok context', st') /\
    member route context' = Some child /\
    member verb child = Some (Function (Request url (length st) m) props) /\
    url_base url = baseUri (at_loc st nodes) /\
    url_path url
    = strip_slashes (join "/" (segments (at_loc st nodes) ++ [route])).
Proof.
  destruct (attachResource_static_run nodes context route resource st Hstatic
              Hbase)
    as (helped & ext1 & ext2 & child & E1 & E2 & ->).
  pose proof (has_base_pushed st nodes route Hbase) as L.
  fold (pushed route (at_loc st nodes)) in L.
  destruct (attachMethods_run (length st)
              (default (Object []) (member route context)) (methods resource)
              (st ++ [pushed route (at_loc st nodes)]) L)
    as (helped' & ext & E & _).
  rewrite E in E1. injection E1 as <- <-%app_inv_head.
  rewrite at_loc_new in E2.
  destruct (attachResources_keep_code _ _ _ _ verb _ [] _ _
              (verbs_onto_verb _ _ _ verb m helped' Hkeys Hverb) Hreserved
              (has_base_app _ ext _ L) E2)
    as (props & Hchild).
  eexists _, _, child, _, props. split; [reflexivity|].
  split; [apply member_set_member|].
  split; [exact Hchild|]. split; reflexivity.
Qed.

Lemma static_route_verbs_witness :
  exists context' st' child url props,
    attachResource 0 (Object []) "users" (mkResource None GET []) start
      = (Ok context', st') /\
    member "users" context' = Some child /\
    member "get" child
      = Some (Function (Request url 1 {| method := VStr "get" |}) props) /\
    url_base url = baseUri (at_loc start 0) /\
    url_path url
    = strip_slashes (join "/" (segments (at_loc start 0) ++ ["users"])).
Proof.
  apply (static_route_verbs 0 (Object []) "users" (mkResource None GET [])
           start "get" {| method := VStr "get" |}).
  - reflexivity.
  - reflexivity.
  - reflexivity.
  - repeat constructor. intros H. inversion H.
  - left. reflexivity.
  - reflexivity.
Defined.





(* ===================================================================== *)
(** * Calling an accessor                                                 *)
(* ===================================================================== *)

(** X21: when an argument of an accessor does not validate, the call throws
    the error of the template engine and the store is as it was: no array
    is changed and no context is built.  With declared parameters the error
    is one of the six of the validator. *)
Theorem accessor_invalid_argument (templateCount : nat) (route : string)
    (resource : Resource) (routeNodes : loc) (args : list JSVal) (st : Store)
    (e : Error)
    (Hargs : templateCount <= length args)
    (Hthrow : template route (uriParameters resource) (CtxArray args) = Throw e) :
  call_accessor templateCount route resource routeNodes args st = (Throw e, st) /\
  (templateTags resource <> [] -> validation_error e = true).
Proof.
  split.
  - unfold call_accessor.
    destruct (Nat.ltb_spec (length args) templateCount); [lia|].
    rewrite run_bind. unfold lift at 1. rewrite Hthrow. reflexivity.
  - unfold templateTags. destruct (uriParameters resource) as [params|];
      [|intros H; contradiction].
    intros H. apply (template_throws_validation route params (CtxArray args) e);
      [|exact Hthrow].
    intros ->. apply H. reflexivity.
Qed.

Lemma accessor_invalid_argument_witness :
  call_accessor 1 "{id}" id_resource 0 [int 7] id_store
  = (Throw TypeMismatch, id_store).
Proof.
  apply (accessor_invalid_argument 1 "{id}" id_resource 0 [int 7] id_store
           TypeMismatch); [simpl; lia | reflexivity].
Defined.

(** X22: when its arguments are enough and validate, an accessor replaces
    the last segment of its array by the text the template engine made of
    the route and returns a context in which every reserved verb of the
    resource is a request function on that array, whose address has the base
    of the array and the segments, the new one last, for path.  The array of
    the accessor has a text for base address. *)
Theorem accessor_call_address (templateCount : nat) (route : string)
    (resource : Resource) (routeNodes : loc) (args : list JSVal) (st : Store)
    (text verb : string) (m : Method)
    (Hnodes : routeNodes < length st)
    (Hbase : has_base st routeNodes)
    (Hargs : templateCount <= length args)
    (Htext : template route (uriParameters resource) (CtxArray args) = Ok text)
    (Hkeys : NoDup (keys (methods resource)))
    (Hverb : In (verb, m) (methods resource))
    (Hreserved : reserved verb = true) :
  exists c st' url props,
    call_accessor templateCount route resource routeNodes args st
    = (Ok (Graph c), st') /\
    segments (at_loc st' routeNodes)
    = <[length (segments (at_loc st routeNodes)) - 1 := text]>
        (segments (at_loc st routeNodes)) /\
    member verb c = Some (Function (Request url routeNodes m) props) /\
    url_base url = baseUri (at_loc st routeNodes) /\
    url_path url
    = strip_slashes
        (join "/" (<[length (segments (at_loc st routeNodes)) - 1 := text]>
                     (segments (at_loc st routeNodes)))).
Proof.
  unfold call_accessor.
  destruct (Nat.ltb_spec (length args) templateCount); [lia|].
  rewrite run_bind. unfold lift at 1. rewrite Htext.
  rewrite run_bind. unfold read at 1. rewrite run_bind. unfold write at 1.
  set (n' := set_segments _ (at_loc st routeNodes)).
  set (st1 := <[routeNodes := n']> st).
  assert (L : routeNodes < length st1)
    by (subst st1; rewrite length_insert; exact Hnodes).
  assert (A : at_loc st1 routeNodes = n')
    by (subst st1; apply at_loc_insert; exact Hnodes).
  assert (B : has_base st1 routeNodes)
    by (subst st1; apply has_base_insert; [exact Hbase | reflexivity]).
  rewrite run_bind.
  destruct (attachMethods_run routeNodes (Object []) (methods resource) st1 B)
    as (helped & ext & -> & _).
  rewrite run_fmap.
  destruct (builds_attachResources (resources resource) routeNodes
              (verbs_onto (at_loc st1 routeNodes) routeNodes (methods resource)
                 helped) (st1 ++ ext) (has_base_app st1 ext _ B))
    as (c & ext2 & E).
  rewrite E.
  destruct (attachResources_keep_code _ _ _ _ verb _ [] _ _
              (verbs_onto_verb _ _ _ verb m helped Hkeys Hverb) Hreserved
              (has_base_app st1 ext _ B) E)
    as (props & Hc).
  rewrite A in Hc.
  eexists c, _, _, props. split; [reflexivity|]. split.
  - rewrite !at_loc_app by (rewrite ?length_app; lia). rewrite A. reflexivity.
  - split; [exact Hc|]. split; reflexivity.
Qed.

Lemma accessor_call_address_witness :
  exists c st' url props,
    call_accessor 1 "{id}" id_resource 0 [VStr "7"] id_store
    = (Ok (Graph c), st') /\
    segments (at_loc st' 0)
    = <[length (segments (at_loc id_store 0)) - 1 := "7"]>
        (segments (at_loc id_store 0)) /\
    member "get" c
    = Some (Function (Request url 0 {| method := VStr "get" |}) props) /\
    url_base url = baseUri (at_loc id_store 0) /\
    url_path url
    = strip_slashes
        (join "/" (<[length (segments (at_loc id_store 0)) - 1 := "7"]>
                     (segments (at_loc id_store 0)))).
Proof.
  apply (accessor_call_address 1 "{id}" id_resource 0 [VStr "7"] id_store
           "7" "get" {| method := VStr "get" |}).
  - simpl. lia.
  - reflexivity.
  - simpl. lia.
  - reflexivity.
  - repeat constructor. intros H. inversion H.
  - left. reflexivity.
  - reflexivity.
Defined.

(* ===================================================================== *)
(** * Sanitizing the description                                          *)
(* ===================================================================== *)

Section Filing.
Context {X A : Type} (f : X -> string) (g : X -> A).

(** Filing the elements of a list one after the other, each under its key. *)
#[local] Abbreviation file l init :=
  (fold_left (fun map x => set_prop (f x) (g x) map) l init).

Lemma keys_set_prop (k k' : string) (v : A) (props : list (string * A)) :
  k ∈ keys (set_prop k' v props) <-> k = k' \/ k ∈ keys props.
Proof.
  unfold keys. induction props as [|[x y] rest IH]; simpl.
  - rewrite list_elem_of_singleton. rewrite elem_of_nil. intuition.
  - destruct (String.eqb_spec k' x) as [->|Hne]; simpl;
      rewrite !elem_of_cons; [intuition|].
    rewrite IH. intuition.
Qed.

Lemma NoDup_set_prop (k : string) (v : A) (props : list (string * A)) :
  NoDup (keys props) -> NoDup (keys (set_prop k v props)).
Proof.
  unfold keys. induction props as [|[x y] rest IH]; simpl; intros H.
  - apply NoDup_singleton.
  - apply NoDup_cons in H as [Hx Hrest].
    destruct (String.eqb_spec k x) as [->|Hne]; simpl;
      apply NoDup_cons; split; auto.
    intros Hin. apply (keys_set_prop x k v rest) in Hin as [->|Hin];
      [contradiction | exact (Hx Hin)].
Qed.

Lemma Forall_set_prop (Q : A -> Prop) (k : string) (v : A)
    (props : list (string * A)) :
  Q v -> Forall (fun entry => Q (snd entry)) props ->
  Forall (fun entry => Q (snd entry)) (set_prop k v props).
Proof.
  intros Hv. induction 1 as [|[x y] rest Hy Hrest IH]; simpl.
  - repeat constructor. exact Hv.
  - destruct (String.eqb k x); constructor; simpl; assumption.
Qed.

Lemma NoDup_file (l : list X) :
  forall init, NoDup (keys init) -> NoDup (keys (file l init)).
Proof.
  induction l as [|x l IH]; intros init H; [exact H|].
  apply IH, NoDup_set_prop, H.
Qed.

Lemma Forall_file (Q : A -> Prop) (l : list X) :
  (forall x, In x l -> Q (g x)) ->
  forall init, Forall (fun entry => Q (snd entry)) init ->
               Forall (fun entry => Q (snd entry)) (file l init).
Proof.
  induction l as [|x l IH]; intros Hl init H; [exact H|].
  apply IH; [intros y Hy; apply Hl; right; exact Hy|].
  apply Forall_set_prop; [apply Hl; left; reflexivity | exact H].
Qed.

Lemma lookup_file_none (k : string) (l : list X) :
  (forall x, In x l -> f x <> k) ->
  forall init, lookup_prop k (file l init) = lookup_prop k init.
Proof.
  induction l as [|x l IH]; intros Hl init; [reflexivity|].
  cbn [fold_left].
  rewrite IH by (intros y Hy; apply Hl; right; exact Hy).
  apply lookup_set_prop_ne. intros ->. exact (Hl x (or_introl eq_refl) eq_refl).
Qed.

Lemma lookup_file_last (before after : list X) (x : X) (init : list (string * A)) :
  (forall y, In y after -> f y <> f x) ->
  lookup_prop (f x) (file (before ++ x :: after) init) = Some (g x).
Proof.
  intros H. rewrite fold_left_app. cbn [fold_left].
  rewrite (lookup_file_none (f x) after H). apply lookup_set_prop.
Qed.

Lemma in_set_prop (k k' : string) (v v' : A) (props : list (string * A)) :
  In (k, v) (set_prop k' v' props) -> (k = k' /\ v = v') \/ In (k, v) props.
Proof.
  induction props as [|[x y] rest IH]; simpl.
  - intros [[= <- <-]|[]]. auto.
  - destruct (String.eqb_spec k' x) as [->|Hne]; simpl.
    + intros [[= <- <-]|H]; auto.
    + intros [H|H]; [auto|]. destruct (IH H); auto.
Qed.

(** What is filed is an element of the list, under its key. *)
Lemma in_file (k : string) (v : A) (l : list X) :
  forall init, In (k, v) (file l init) ->
               In (k, v) init \/ exists x, In x l /\ f x = k /\ g x = v.
Proof.
  induction l as [|x l IH]; intros init H; [auto|].
  cbn [fold_left] in H. apply IH in H as [H|(y & Hy & E)].
  - apply in_set_prop in H as [[-> ->]|H]; [right | auto].
    exists x. split; [left; reflexivity | auto].
  - right. exists y. split; [right; exact Hy | exact E].
Qed.

(** The keys are those there were and those of the elements of the list. *)
Lemma keys_file (k : string) (l : list X) :
  forall init, k ∈ keys (file l init) <->
               k ∈ keys init \/ exists x, In x l /\ f x = k.
Proof.
  induction l as [|x l IH]; intros init.
  - split; [auto | intros [H|(x & [] & _)]; exact H].
  - cbn [fold_left]. rewrite IH, keys_set_prop. split.
    + intros [[->|H]|(y & Hy & E)]; [right | auto | right].
      * exists x. split; [left|]; reflexivity.
      * exists y. split; [right; exact Hy | exact E].
    + intros [H|(y & [->|Hy] & E)]; [auto | auto | right; eauto].
Qed.

End Filing.

Lemma filed_under_substr1 (uri route : string) :
  filed_under uri route <-> substr1 uri = route.
Proof.
  unfold filed_under. destruct uri as [|c rest]; simpl; split.
  - intros [[_ ->]|(c & [=])]. reflexivity.
  - intros <-. auto.
  - intros [[[=] _]|(c' & [= _ ->])]. reflexivity.
  - intros <-. eauto.
Qed.

(** Induction on a raw resource, with the property for the resources below
    it. *)
Lemma RawResource_induction (P : RawResource -> Prop) :
  (forall uri params ms below,
     (forall rs, below = Some rs -> Forall P rs) ->
     P (mkRaw uri params ms below)) ->
  forall r, P r.
Proof.
  intros step. fix IH 1. intros [uri params ms below]. apply step.
  destruct below as [rs|]; [|intros rs' [=]].
  assert (Forall P rs) as Hrs.
  { induction rs as [|r rest IHrest]; constructor; [apply IH | exact IHrest]. }
  intros rs' [= <-]. exact Hrs.
Qed.

Lemma flattenResource_well_keyed (r : RawResource) : WellKeyed (flattenResource r).
Proof.
  induction r as [uri params ms below IH] using RawResource_induction.
  simpl. constructor.
  - destruct ms as [ms|]; simpl; [|constructor].
    apply (NoDup_file (fun m => ToString (method m)) (fun m => m)). apply NoDup_nil_2.
  - destruct below as [rs|]; [|constructor].
    apply (NoDup_file (fun r' => substr1 (relativeUri r')) flattenResource).
    constructor.
  - destruct below as [rs|]; [|constructor].
    apply (Forall_file (fun r' => substr1 (relativeUri r')) flattenResource
             WellKeyed); [|constructor].
    intros x Hx. specialize (IH rs eq_refl).
    rewrite Forall_forall in IH. apply IH, list_elem_of_In, Hx.
Qed.




(** X25: the methods of a sanitized resource are keyed by the text of their
    [method] property: of several methods with the same verb the last one is
    kept, and a verb no method has is not a key. *)
Theorem methods_object_lookup (before after : list Method) (m : Method)
    (Hlast : forall m', In m' after -> ToString (method m') <> ToString (method m)) :
  lookup_prop (ToString (method m)) (methods_object (before ++ m :: after))
  = Some m /\
  (forall verb methods,
     (forall m', In m' methods -> ToString (method m') <> verb) ->
     lookup_prop verb (methods_object methods) = None).
Proof.
  split.
  - apply (lookup_file_last (fun m => ToString (method m)) (fun m => m)
             before after m []). exact Hlast.
  - intros verb methods H.
    apply (lookup_file_none (fun m => ToString (method m)) (fun m => m)
             verb methods H []).
Qed.

Lemma methods_object_lookup_witness :
  lookup_prop "get"
    (methods_object ([] ++ {| method := VStr "get" |}
                        :: [{| method := VStr "post" |}]))
  = Some {| method := VStr "get" |}.
Proof.
  apply (methods_object_lookup [] [{| method := VStr "post" |}]
           {| method := VStr "get" |}).
  intros m' [<-|[]]. discriminate.
Defined.

(* ===================================================================== *)
(** * The root of the client and sequences of calls                       *)
(* ===================================================================== *)

Lemma not_reserved (name : string) :
  reserved name = false -> forall x, In x RESERVED_METHODS -> name <> x.
Proof.
  intros H x Hx ->.
  assert (reserved x = true) as E; [|congruence].
  apply existsb_exists. exists x. split; [exact Hx | apply String.eqb_refl].
Qed.

(** X26: [generateClient] first builds the object that goes under
    ['@return'] of the client, [attachMethods] on an empty object with
    [httpMethods].  When the base address of the description is a text,
    every member of that object has a reserved name, and each of the six
    plain verbs is a request function with the method of that name on the
    array of the root; when it is not a text (a description without
    [baseUri], say), [generateClient] throws the error of [url.resolve]. *)
Theorem root_members_reserved (base : JSVal) (st : Store) :
  (is_string base = true ->
   exists c st',
     client_return base st = (Ok c, st') /\
     (forall name, member name c <> None -> reserved name = true) /\
     (forall verb, In verb HTTP_METHODS ->
        member verb c
        = Some (request_for (root_nodes base) (length st)
                  {| method := VStr verb |}))) /\
  (is_string base = false ->
   exists st', client_return base st = (Throw BaseNotString, st')).
Proof.
  assert (R : client_return base st
              = attachMethods (length st) (Object []) httpMethods
                  (st ++ [root_nodes base])) by reflexivity.
  rewrite R. split; intros Hbase.
  - destruct (attachMethods_run (length st) (Object []) httpMethods
                (st ++ [root_nodes base])
                (has_base_new st (root_nodes base) Hbase))
      as (helped & ext & E & Hother & _).
    rewrite at_loc_new in E.
    eexists _, _. split; [exact E|]. split.
    + intros name Hname. destruct (reserved name) eqn:N; [reflexivity|].
      exfalso. apply Hname.
      pose proof (not_reserved name N) as Hno.
      rewrite verbs_onto_other.
      * rewrite Hother; [reflexivity| |]; apply Hno; unfold RESERVED_METHODS;
          apply in_or_app; right; simpl; tauto.
      * intros Hin. apply (Hno name); [|reflexivity].
        apply in_or_app. left. exact Hin.
    + intros verb Hverb. apply verbs_onto_verb.
      * change (NoDup HTTP_METHODS). unfold HTTP_METHODS.
        repeat (apply NoDup_cons; split;
          [rewrite ?elem_of_cons, elem_of_nil; intuition discriminate|]).
        apply NoDup_nil_2.
      * unfold httpMethods. apply in_map_iff. exists verb. auto.
  - apply attachMethods_throws; [rewrite at_loc_new; exact Hbase|].
    discriminate.
Qed.

(** X27: the data given to a request function are sent whatever the verb
    is, also for [get] and [head]: the test of line 212 compares the method
    object, not its name, with the texts ['get'] and ['head'], and an object
    is never [===] to a text.  An object, an array or [null] is sent as
    [JSON.stringify] makes it, anything else as it is.  The array the
    methods are attached on has a text for base address, and the verb is not
    the name of a built-in property. *)
Theorem request_keeps_data (nodes : loc) (context : Value) (methods : Methods)
    (st : Store) (verb : string) (m : Method) (data : JSVal) (rest : list JSVal)
    (Hnodes : nodes < length st)
    (Hbase : has_base st nodes)
    (Hplain : built_in verb = false)
    (Hkeys : NoDup (keys methods))
    (Hverb : In (verb, m) methods) :
  exists c ext f options,
    attachMethods nodes context methods st = (Ok c, st ++ ext) /\
    member verb c = Some f /\
    invoke f (data :: rest) (st ++ ext) = (Ok (Sent options), st ++ ext) /\
    opt_data options
    = if typeof_object data then BodyJson data else BodyRaw data.
Proof.
  destruct (attachMethods_run nodes context methods st Hbase)
    as (helped & ext & E & _).
  eexists _, ext, _, _. split; [exact E|].
  split; [apply (verbs_onto_verb _ _ _ _ m); assumption|].
  split; reflexivity.
Qed.

Lemma request_keeps_data_witness :
  exists c ext f options,
    attachMethods 0 (Object []) GET start = (Ok c, start ++ ext) /\
    member "get" c = Some f /\
    invoke f [VStr "x"] (start ++ ext) = (Ok (Sent options), start ++ ext) /\
    opt_data options = BodyRaw (VStr "x").
Proof.
  apply (request_keeps_data 0 (Object []) GET start "get"
           {| method := VStr "get" |} (VStr "x") []).
  - simpl. lia.
  - reflexivity.
  - reflexivity.
  - apply NoDup_singleton.
  - left. reflexivity.
Defined.

(** A call leaves the store as long as it was or longer. *)
Lemma invoke_length (f : Value) (args : list JSVal) (st : Store) :
  length st <= length (snd (invoke f args st)).
Proof.
  assert (forall {A : Type} l x (m : M A), Extends m ->
            length st <= length (snd ((write l x;; m) st))) as Hw.
  { intros A l x m Hm. destruct (write_then_build l x m st Hm) as (r & ext & ->).
    simpl. rewrite length_app, length_insert. lia. }
  destruct f as [props|[url l' m'|rn ms|rn ms|count route resource rn] props];
    simpl; try reflexivity.
  - unfold call_query. cbv zeta. rewrite run_bind. unfold read at 1.
    apply Hw, extends_fmap, extends_attachMethods.
  - unfold call_headers. cbv zeta. destruct (negb _); [reflexivity|].
    rewrite run_bind. unfold read at 1.
    apply Hw, extends_fmap, extends_attachMethods.
  - unfold call_accessor. destruct (length args <? count); [reflexivity|].
    rewrite run_bind. unfold lift at 1.
    destruct (template route (uriParameters resource) (CtxArray args));
      [|reflexivity].
    rewrite run_bind. unfold read at 1.
    apply Hw, extends_bind; [apply extends_attachMethods|].
    intros c. apply extends_fmap, extends_attachResources.
Qed.

(** X28: a request function made on an array hands the same request to the
    middleware after any number of calls of functions of the client, whether
    they return or throw, as long as none of them is the headers helper of
    that array: the address was resolved when the function was made, and the
    other calls do not touch the headers of the array. *)
Theorem requests_survive_calls (calls : list (Value * list JSVal))
    (fullUrl : Url) (l : loc) (m : Method) (data : list JSVal) :
  forall (st : Store) (Hl : l < length st)
         (Hcalls : Forall (spares_headers l) calls),
    fst (send fullUrl l m data (run_calls calls st))
    = fst (send fullUrl l m data st).
Proof.
  induction calls as [|[f args] rest IH]; intros st Hl Hcalls; [reflexivity|].
  apply Forall_cons in Hcalls as [Hf Hrest].
  change (run_calls ((f, args) :: rest) st)
    with (run_calls rest (snd (invoke f args st))).
  rewrite IH; [|pose proof (invoke_length f args st); lia | exact Hrest].
  apply calls_keep_requests; [exact Hl | exact Hf].
Qed.

Lemma requests_survive_calls_witness :
  fst (send (address (at_loc start 0)) 0 {| method := VStr "get" |} []
         (run_calls [(Function (QueryHelper 0 GET) [], [VStr "a=1"]);
                     (Function (HeadersHelper 1 GET) [], [VObj []])] start))
  = fst (send (address (at_loc start 0)) 0 {| method := VStr "get" |} [] start).
Proof.
  apply requests_survive_calls.
  - simpl. lia.
  - repeat constructor; intros rn ms props [=]; subst; lia.
Defined.

(** The witness of X29, the adequacy of the depth of [attachMethods]. *)
Lemma attachMethods_fuel_enough_witness :
  attachMethods_fuel 5 0 (Object []) GET start
  = attachMethods 0 (Object []) GET start.
Proof. apply attachMethods_fuel_enough; simpl; lia. Defined.
